(** * Networked monitor (Zephyr capstone project): sampler and web server

    A shallow embedding of [sensor_manager.c], [main.c] and [web_server.c].

    - Part 1 embeds the data ([struct sensor_value], [struct sensor_reading])
      and the part of [snprintf] the web server uses.
    - Part 2 embeds each thread as a program in a small monad: a thread
      changes [latest_reading] and calls the kernel, the sensor driver and the
      socket layer; what those calls return is chosen by the environment.
    - Part 3 embeds the two threads running together as a transition system,
      one step per shared-memory access, to reason about [data_mutex].
    - Part 4 holds what the properties are stated against: a reader for the
      formatted body and the response as the specification words it.
    - Part 5 holds the predicates and examples the statements use.

    The proofs follow, in the same order. *)

From Stdlib Require Import ZArith List Ascii String Bool Lia.
Import ListNotations.

Local Open Scope Z_scope.
Local Open Scope list_scope.

(* ===================================================================== *)
(** * Part 1: data and formatting *)
(* ===================================================================== *)

(** [struct sensor_value] of the Zephyr sensor API: two [int32_t],
    the integer part and the fractional part in millionths. *)
Record sensor_value := { val1 : Z; val2 : Z }.

(** [struct sensor_reading] (sensor_manager.h). *)
Record sensor_reading := {
  temp : sensor_value;
  press : sensor_value;
  humidity : sensor_value
}.

Definition INT_MIN : Z := -2147483648.
Definition INT_MAX : Z := 2147483647.

(** The values an [int32_t] can hold. *)
Definition int32 (v : Z) : Prop := INT_MIN <= v <= INT_MAX.

Definition sensor_value_ok (v : sensor_value) : Prop :=
  int32 (val1 v) /\ int32 (val2 v).

Definition reading_ok (r : sensor_reading) : Prop :=
  sensor_value_ok (temp r) /\ sensor_value_ok (press r) /\
  sensor_value_ok (humidity r).

(** A fractional part that is a count of millionths below one unit. *)
Definition micro (v : sensor_value) : Prop := 0 <= val2 v <= 999999.

Definition reading_micro (r : sensor_reading) : Prop :=
  micro (temp r) /\ micro (press r) /\ micro (humidity r).

(** [latest_reading] of main.c has static storage and no initialiser:
    every member starts at zero. *)
Definition zero_value : sensor_value := {| val1 := 0; val2 := 0 |}.
Definition zero_reading : sensor_reading :=
  {| temp := zero_value; press := zero_value; humidity := zero_value |}.

(** ** Bytes *)

Definition bytes := list ascii.

Definition lit (s : string) : bytes := list_ascii_of_string s.

Definition CR : ascii := ascii_of_nat 13.
Definition LF : ascii := ascii_of_nat 10.
Definition CRLF : bytes := [CR; LF].

Definition strlen (s : bytes) : nat := List.length s.

(** ** The conversions of [printf] used by the server: [%d], [%06d], [%%] *)

Definition digit_char (d : Z) : ascii := ascii_of_nat (Z.to_nat (48 + d)).

(** Decimal digits of a magnitude, least significant first, as the
    conversion loop of a [printf] produces them. *)
Fixpoint rev_digits (fuel : nat) (n : Z) : bytes :=
  match fuel with
  | O => []
  | S f =>
      digit_char (n mod 10)
        :: (if n / 10 =? 0 then [] else rev_digits f (n / 10))
  end.

(** Ten digits are enough for the magnitude of any [int32_t]. *)
Definition utoa (n : Z) : bytes := rev (rev_digits 10 n).

Definition sign_of (v : Z) : bytes := if v <? 0 then ["-"%char] else [].

(** [%d] *)
Definition fmt_d (v : Z) : bytes := sign_of v ++ utoa (Z.abs v).

(** [%0<w>d]: the sign first, then zeros up to a total width of [w]. *)
Definition fmt_0d (w : nat) (v : Z) : bytes :=
  let ds := utoa (Z.abs v) in
  let sg := sign_of v in
  sg ++ repeat "0"%char (w - List.length sg - List.length ds) ++ ds.

Definition fmt_06d : Z -> bytes := fmt_0d 6.

(** The format interpreter, for the directives the sources use. An argument
    list that is too short converts to nothing. *)
Fixpoint vformat (fmt : bytes) (args : list Z) : bytes :=
  match fmt with
  | [] => []
  | c :: f =>
      if negb (Ascii.eqb c "%") then c :: vformat f args
      else
        match f with
        | [] => [c]
        | c1 :: f1 =>
            if Ascii.eqb c1 "%" then "%"%char :: vformat f1 args
            else if Ascii.eqb c1 "d" then
              match args with
              | a :: args' => fmt_d a ++ vformat f1 args'
              | [] => vformat f1 []
              end
            else
              match f1 with
              | c2 :: c3 :: f3 =>
                  if Ascii.eqb c1 "0" && Ascii.eqb c2 "6" && Ascii.eqb c3 "d"
                  then
                    match args with
                    | a :: args' => fmt_06d a ++ vformat f3 args'
                    | [] => vformat f3 []
                    end
                  else c :: vformat f args
              | _ => c :: vformat f args
              end
        end
  end.

(** [snprintf(buf, size, fmt, ...)]: at most [size - 1] bytes of the
    formatted text are stored (then the terminator); the value is the
    C string left in [buf]. *)
Definition snprintf (size : nat) (fmt : bytes) (args : list Z) : bytes :=
  firstn (size - 1) (vformat fmt args).

(** ** The two responses of web_server.c *)

(** The format string of [handle_client], literal by literal. *)
Definition response_format : bytes :=
  lit "HTTP/1.1 200 OK" ++ CRLF ++
  lit "Content-Type: text/html" ++ CRLF ++ CRLF ++
  lit "<html><head><title>Weather Station</title></head>" ++
  lit "<body><h1>Weather Station</h1>" ++
  lit "<p>Temperature: %d.%06d C</p>" ++
  lit "<p>Pressure: %d.%06d kPa</p>" ++
  lit "<p>Humidity: %d.%06d %%</p>" ++
  lit "</body></html>".

Definition response_args (data : sensor_reading) : list Z :=
  [ val1 (temp data); val2 (temp data);
    val1 (press data); val2 (press data);
    val1 (humidity data); val2 (humidity data) ].

(** [char response[256]] *)
Definition sizeof_response : nat := 256.

(** What [response] holds after the [snprintf] of [handle_client]. *)
Definition format_response (data : sensor_reading) : bytes :=
  snprintf sizeof_response response_format (response_args data).

Definition error_response : bytes :=
  lit "HTTP/1.1 503 Service Unavailable" ++ CRLF ++ CRLF.

Definition example_reading : sensor_reading :=
  {| temp := {| val1 := 23; val2 := 456000 |};
     press := {| val1 := 101; val2 := 325000 |};
     humidity := {| val1 := 45; val2 := 120000 |} |}.

(* ===================================================================== *)
(** * Part 2: the threads, one at a time *)
(* ===================================================================== *)

(** ** Calls into the kernel, the sensor driver and the socket layer *)

Inductive channel :=
| SENSOR_CHAN_AMBIENT_TEMP
| SENSOR_CHAN_PRESS
| SENSOR_CHAN_HUMIDITY.

(** Every external function the two source files call, with the arguments
    they pass. [send] carries the buffer and the length given to it. *)
Inductive call :=
| k_mutex_lock (timeout_ms : Z)
| k_mutex_unlock
| k_sleep (timeout_ms : Z)
| device_is_ready
| sensor_sample_fetch
| sensor_channel_get (chan : channel)
| LOG_ERR (msg : string)
| LOG_INF (msg : string) (arg : Z)
| socket
| bind (sock : Z) (port : Z)
| listen (sock : Z) (backlog : Z)
| accept (sock : Z)
| send (sock : Z) (buf : bytes) (len : nat)
| close (sock : Z).

(** What the environment hands back: the value returned and, for
    [sensor_channel_get], what the driver stored through the pointer
    ([None] when it stored nothing). *)
Record answer := { ret : Z; out : option sensor_value }.

(** The environment answers the [i]-th call made since start-up. *)
Definition env := nat -> answer.

Definition event : Type := call * Z.

(** The shared variable of main.c, the calls made so far with the values
    they returned (oldest first), and how many there were. *)
Record world := {
  latest_reading : sensor_reading;
  trace : list event;
  clock : nat
}.

(** The environment's answer to the [k]-th call made from [w] on. *)
Definition answer_at (e : env) (w : world) (k : nat) : answer :=
  e (k + clock w)%nat.

(** ** The monad *)

Definition M (A : Type) : Type := env -> world -> A * world.

Definition pure {A} (a : A) : M A := fun _ w => (a, w).

Definition mbind {A B} (m : M A) (k : A -> M B) : M B :=
  fun e w => let (a, w') := m e w in k a e w'.

Notation "x <- m ;; k" := (mbind m (fun x => k))
  (at level 61, m at next level, right associativity).
Notation "m ;; k" := (mbind m (fun _ => k))
  (at level 61, right associativity).

Definition sys (c : call) : M answer :=
  fun e w =>
    let a := e (clock w) in
    (a, {| latest_reading := latest_reading w;
           trace := trace w ++ [(c, ret a)];
           clock := S (clock w) |}).

Definition load_latest_reading : M sensor_reading :=
  fun _ w => (latest_reading w, w).

Definition store_latest_reading (data : sensor_reading) : M unit :=
  fun _ w =>
    (tt, {| latest_reading := data; trace := trace w; clock := clock w |}).

Definition exec {A} (m : M A) (e : env) (w : world) : world := snd (m e w).

(** The calls [m] adds to the trace of [w]. *)
Definition new_events {A} (m : M A) (e : env) (w : world) : list event :=
  skipn (List.length (trace w)) (trace (exec m e w)).

(** ** Constants *)

Definition K_MSEC (ms : Z) : Z := ms.
Definition K_SECONDS (s : Z) : Z := 1000 * s.
Definition WEB_SERVER_PORT : Z := 80.

(** ** web_server.c *)

Definition handle_client (client : Z) : M unit :=
  rc <- sys (k_mutex_lock (K_MSEC 500)) ;;
  if ret rc =? 0 then
    data <- load_latest_reading ;;
    sys k_mutex_unlock ;;
    let response := format_response data in
    sys (send client response (strlen response)) ;;
    sys (close client) ;;
    pure tt
  else
    sys (send client error_response (strlen error_response)) ;;
    sys (close client) ;;
    pure tt.

(** One turn of the [while (1)] of [web_server_thread]. *)
Definition accept_once (server_sock : Z) : M unit :=
  c <- sys (accept server_sock) ;;
  let client_sock := ret c in
  if client_sock >=? 0 then handle_client client_sock else pure tt.

(** The first [n] turns of the loop. The loop has no exit: the run of the
    thread is the limit of these prefixes. *)
Fixpoint accept_loop (n : nat) (server_sock : Z) : M unit :=
  match n with
  | O => pure tt
  | S k => accept_once server_sock ;; accept_loop k server_sock
  end.

Definition web_server_thread (n : nat) : M unit :=
  s <- sys socket ;;
  let server_sock := ret s in
  sys (bind server_sock WEB_SERVER_PORT) ;;
  sys (listen server_sock 5) ;;
  sys (LOG_INF "Web server listening on port %d" WEB_SERVER_PORT) ;;
  accept_loop n server_sock.

(** ** sensor_manager.c *)

Definition store_channel (old : sensor_value) (a : answer) : sensor_value :=
  match out a with
  | Some v => v
  | None => old
  end.

(** One turn of the [while (1)] of [sensor_thread]; [data] is the local
    variable, which keeps its value from one turn to the next. *)
Definition sensor_cycle (data : sensor_reading) : M sensor_reading :=
  sys sensor_sample_fetch ;;
  t <- sys (sensor_channel_get SENSOR_CHAN_AMBIENT_TEMP) ;;
  p <- sys (sensor_channel_get SENSOR_CHAN_PRESS) ;;
  h <- sys (sensor_channel_get SENSOR_CHAN_HUMIDITY) ;;
  let data := {| temp := store_channel (temp data) t;
                 press := store_channel (press data) p;
                 humidity := store_channel (humidity data) h |} in
  rc <- sys (k_mutex_lock (K_MSEC 500)) ;;
  (if ret rc =? 0 then
     store_latest_reading data ;;
     sys k_mutex_unlock ;;
     pure tt
   else pure tt) ;;
  sys (k_sleep (K_SECONDS 5)) ;;
  pure data.

Fixpoint sensor_loop (n : nat) (data : sensor_reading) : M unit :=
  match n with
  | O => pure tt
  | S k => data' <- sensor_cycle data ;; sensor_loop k data'
  end.

(** [data0] is whatever the uninitialised local [data] holds. *)
Definition sensor_thread (n : nat) (data0 : sensor_reading) : M unit :=
  rdy <- sys device_is_ready ;;
  if ret rdy =? 0 then
    sys (LOG_ERR "BME280 device not ready") ;;
    pure tt
  else sensor_loop n data0.

(** ** main.c: the world at start-up *)

Definition boot : world :=
  {| latest_reading := zero_reading; trace := []; clock := 0 |}.

(* ===================================================================== *)
(** * Part 3: the two threads together *)
(* ===================================================================== *)

(** The threads of main.c. Both have priority 7; either may run whenever it
    is not blocked. A structure assignment is not one memory access: it is
    modelled as one step per [int32_t] member, in any order, and the other
    thread may run between two of them. *)

Inductive thread := sensor_tid | web_server_tid.

(** The six [int32_t] members of a [struct sensor_reading]. *)
Inductive slot :=
| temp_val1 | temp_val2
| press_val1 | press_val2
| humidity_val1 | humidity_val2.

Definition all_slots : list slot :=
  [temp_val1; temp_val2; press_val1; press_val2; humidity_val1; humidity_val2].

Definition get (s : slot) (r : sensor_reading) : Z :=
  match s with
  | temp_val1 => val1 (temp r)
  | temp_val2 => val2 (temp r)
  | press_val1 => val1 (press r)
  | press_val2 => val2 (press r)
  | humidity_val1 => val1 (humidity r)
  | humidity_val2 => val2 (humidity r)
  end.

Definition set_val1 (x : Z) (v : sensor_value) : sensor_value :=
  {| val1 := x; val2 := val2 v |}.
Definition set_val2 (x : Z) (v : sensor_value) : sensor_value :=
  {| val1 := val1 v; val2 := x |}.

Definition set (s : slot) (x : Z) (r : sensor_reading) : sensor_reading :=
  match s with
  | temp_val1 =>
      {| temp := set_val1 x (temp r); press := press r; humidity := humidity r |}
  | temp_val2 =>
      {| temp := set_val2 x (temp r); press := press r; humidity := humidity r |}
  | press_val1 =>
      {| temp := temp r; press := set_val1 x (press r); humidity := humidity r |}
  | press_val2 =>
      {| temp := temp r; press := set_val2 x (press r); humidity := humidity r |}
  | humidity_val1 =>
      {| temp := temp r; press := press r; humidity := set_val1 x (humidity r) |}
  | humidity_val2 =>
      {| temp := temp r; press := press r; humidity := set_val2 x (humidity r) |}
  end.

(** Where [sensor_thread] stands (line numbers of sensor_manager.c). *)
Inductive sensor_pc :=
| S_start                        (* 18: before device_is_ready *)
| S_returned                     (* 20: after the return *)
| S_fetch                        (* 24-27 *)
| S_lock                         (* 29 *)
| S_store (todo : list slot)     (* 30-31: holding data_mutex *)
| S_sleep.                       (* 34 *)

(** Where [web_server_thread] stands (line numbers of web_server.c). *)
Inductive web_pc :=
| W_start                                  (* 55-64 *)
| W_accept                                 (* 69 *)
| H_lock (client : Z)                      (* 21 *)
| H_copy (client : Z) (todo : list slot)   (* 22-23: holding data_mutex *)
| H_format (client : Z)                    (* 33 *)
| H_send (client : Z) (response : bytes)   (* 27 or 46 *)
| H_close (client : Z).                    (* 28 or 47 *)

(** [published] is not program state: it records the readings whose store
    into [latest_reading] completed, newest first, starting with the value
    [latest_reading] has at start-up. *)
Record state := {
  g_latest_reading : sensor_reading;
  g_data_mutex : option thread;            (* the owner, if locked *)
  spc : sensor_pc;
  s_data : sensor_reading;                 (* [data] of sensor_thread *)
  wpc : web_pc;
  w_server_sock : Z;
  w_data : sensor_reading;                 (* [data] of handle_client *)
  g_trace : list event;
  published : list sensor_reading
}.

Definition initial (s_data0 w_data0 : sensor_reading) (sock0 : Z) : state :=
  {| g_latest_reading := zero_reading;
     g_data_mutex := None;
     spc := S_start; s_data := s_data0;
     wpc := W_start; w_server_sock := sock0; w_data := w_data0;
     g_trace := [];
     published := [zero_reading] |}.

Definition sensor_moves (st : state) (pc : sensor_pc) (evs : list event) : state :=
  {| g_latest_reading := g_latest_reading st;
     g_data_mutex := g_data_mutex st;
     spc := pc; s_data := s_data st;
     wpc := wpc st; w_server_sock := w_server_sock st; w_data := w_data st;
     g_trace := g_trace st ++ evs;
     published := published st |}.

Definition web_moves (st : state) (pc : web_pc) (evs : list event) : state :=
  {| g_latest_reading := g_latest_reading st;
     g_data_mutex := g_data_mutex st;
     spc := spc st; s_data := s_data st;
     wpc := pc; w_server_sock := w_server_sock st; w_data := w_data st;
     g_trace := g_trace st ++ evs;
     published := published st |}.

Definition with_mutex (st : state) (o : option thread) : state :=
  {| g_latest_reading := g_latest_reading st;
     g_data_mutex := o;
     spc := spc st; s_data := s_data st;
     wpc := wpc st; w_server_sock := w_server_sock st; w_data := w_data st;
     g_trace := g_trace st;
     published := published st |}.

Definition with_latest (st : state) (r : sensor_reading) : state :=
  {| g_latest_reading := r;
     g_data_mutex := g_data_mutex st;
     spc := spc st; s_data := s_data st;
     wpc := wpc st; w_server_sock := w_server_sock st; w_data := w_data st;
     g_trace := g_trace st;
     published := published st |}.

Definition with_s_data (st : state) (r : sensor_reading) : state :=
  {| g_latest_reading := g_latest_reading st;
     g_data_mutex := g_data_mutex st;
     spc := spc st; s_data := r;
     wpc := wpc st; w_server_sock := w_server_sock st; w_data := w_data st;
     g_trace := g_trace st;
     published := published st |}.

Definition with_w_data (st : state) (r : sensor_reading) : state :=
  {| g_latest_reading := g_latest_reading st;
     g_data_mutex := g_data_mutex st;
     spc := spc st; s_data := s_data st;
     wpc := wpc st; w_server_sock := w_server_sock st; w_data := r;
     g_trace := g_trace st;
     published := published st |}.

Definition with_server_sock (st : state) (s : Z) : state :=
  {| g_latest_reading := g_latest_reading st;
     g_data_mutex := g_data_mutex st;
     spc := spc st; s_data := s_data st;
     wpc := wpc st; w_server_sock := s; w_data := w_data st;
     g_trace := g_trace st;
     published := published st |}.

Definition publish (st : state) (r : sensor_reading) : state :=
  {| g_latest_reading := g_latest_reading st;
     g_data_mutex := g_data_mutex st;
     spc := spc st; s_data := s_data st;
     wpc := wpc st; w_server_sock := w_server_sock st; w_data := w_data st;
     g_trace := g_trace st;
     published := r :: published st |}.

(** One step of one thread. [rdy] is what [device_is_ready] returns.
    [k_mutex_lock] with a timeout returns 0 with the mutex taken, or, when
    another thread held it for the whole wait, a non-zero code; a thread that
    is still waiting takes no step. *)
Inductive step (rdy : Z) : state -> state -> Prop :=
(* sensor_thread *)
| sensor_not_ready st r :
    spc st = S_start -> rdy = 0 ->
    step rdy st
      (sensor_moves st S_returned
         [(device_is_ready, rdy); (LOG_ERR "BME280 device not ready", r)])
| sensor_ready st :
    spc st = S_start -> rdy <> 0 ->
    step rdy st (sensor_moves st S_fetch [(device_is_ready, rdy)])
| sensor_fetch st f t p h :
    spc st = S_fetch ->
    step rdy st
      (sensor_moves
         (with_s_data st
            {| temp := store_channel (temp (s_data st)) t;
               press := store_channel (press (s_data st)) p;
               humidity := store_channel (humidity (s_data st)) h |})
         S_lock
         [(sensor_sample_fetch, f);
          (sensor_channel_get SENSOR_CHAN_AMBIENT_TEMP, ret t);
          (sensor_channel_get SENSOR_CHAN_PRESS, ret p);
          (sensor_channel_get SENSOR_CHAN_HUMIDITY, ret h)])
| sensor_lock st :
    spc st = S_lock -> g_data_mutex st = None ->
    step rdy st
      (sensor_moves (with_mutex st (Some sensor_tid)) (S_store all_slots)
         [(k_mutex_lock (K_MSEC 500), 0)])
| sensor_lock_timeout st rc :
    spc st = S_lock -> g_data_mutex st = Some web_server_tid -> rc <> 0 ->
    step rdy st (sensor_moves st S_sleep [(k_mutex_lock (K_MSEC 500), rc)])
| sensor_store st before s after :
    spc st = S_store (before ++ s :: after) ->
    step rdy st
      (sensor_moves
         (with_latest st (set s (get s (s_data st)) (g_latest_reading st)))
         (S_store (before ++ after)) [])
| sensor_unlock st r :
    spc st = S_store [] ->
    step rdy st
      (sensor_moves (publish (with_mutex st None) (s_data st)) S_sleep
         [(k_mutex_unlock, r)])
| sensor_sleep st r :
    spc st = S_sleep ->
    step rdy st (sensor_moves st S_fetch [(k_sleep (K_SECONDS 5), r)])
(* web_server_thread *)
| web_start st s b l g :
    wpc st = W_start ->
    step rdy st
      (web_moves (with_server_sock st s) W_accept
         [(socket, s); (bind s WEB_SERVER_PORT, b); (listen s 5, l);
          (LOG_INF "Web server listening on port %d" WEB_SERVER_PORT, g)])
| web_accept st c :
    wpc st = W_accept ->
    step rdy st
      (web_moves st (if c >=? 0 then H_lock c else W_accept)
         [(accept (w_server_sock st), c)])
| web_lock st c :
    wpc st = H_lock c -> g_data_mutex st = None ->
    step rdy st
      (web_moves (with_mutex st (Some web_server_tid)) (H_copy c all_slots)
         [(k_mutex_lock (K_MSEC 500), 0)])
| web_lock_timeout st c rc :
    wpc st = H_lock c -> g_data_mutex st = Some sensor_tid -> rc <> 0 ->
    step rdy st
      (web_moves st (H_send c error_response)
         [(k_mutex_lock (K_MSEC 500), rc)])
| web_copy st c before s after :
    wpc st = H_copy c (before ++ s :: after) ->
    step rdy st
      (web_moves
         (with_w_data st (set s (get s (g_latest_reading st)) (w_data st)))
         (H_copy c (before ++ after)) [])
| web_unlock st c r :
    wpc st = H_copy c [] ->
    step rdy st
      (web_moves (with_mutex st None) (H_format c) [(k_mutex_unlock, r)])
| web_format st c :
    wpc st = H_format c ->
    step rdy st (web_moves st (H_send c (format_response (w_data st))) [])
| web_send st c response r :
    wpc st = H_send c response ->
    step rdy st
      (web_moves st (H_close c) [(send c response (strlen response), r)])
| web_close st c r :
    wpc st = H_close c ->
    step rdy st (web_moves st W_accept [(close c, r)]).

(** The states the system can reach from start-up, under any schedule. *)
Inductive reachable (rdy : Z) : state -> Prop :=
| reach_initial s0 w0 k0 : reachable rdy (initial s0 w0 k0)
| reach_step st st' : reachable rdy st -> step rdy st st' -> reachable rdy st'.

(** ** The step relation as a function *)

(** A step together with what the environment chose in it. *)
Inductive action :=
| a_sensor_check (r : Z)
| a_sensor_fetch (f : Z) (t p h : answer)
| a_sensor_lock (rc : Z)
| a_sensor_store (s : slot)
| a_sensor_unlock (r : Z)
| a_sensor_sleep (r : Z)
| a_web_start (s b l g : Z)
| a_web_accept (c : Z)
| a_web_lock (rc : Z)
| a_web_copy (s : slot)
| a_web_unlock (r : Z)
| a_web_format
| a_web_send (r : Z)
| a_web_close (r : Z).

Definition slot_eqb (a b : slot) : bool :=
  match a, b with
  | temp_val1, temp_val1 | temp_val2, temp_val2
  | press_val1, press_val1 | press_val2, press_val2
  | humidity_val1, humidity_val1 | humidity_val2, humidity_val2 => true
  | _, _ => false
  end.

(** Split a list of slots around the first occurrence of [s]. *)
Fixpoint split_at (s : slot) (l : list slot) : option (list slot * list slot) :=
  match l with
  | [] => None
  | x :: l' =>
      if slot_eqb s x then Some ([], l')
      else
        match split_at s l' with
        | Some (b, a) => Some (x :: b, a)
        | None => None
        end
  end.

Definition fire (rdy : Z) (a : action) (st : state) : option state :=
  match a with
  | a_sensor_check r =>
      match spc st with
      | S_start =>
          Some (if rdy =? 0
                then sensor_moves st S_returned
                       [(device_is_ready, rdy);
                        (LOG_ERR "BME280 device not ready", r)]
                else sensor_moves st S_fetch [(device_is_ready, rdy)])
      | _ => None
      end
  | a_sensor_fetch f t p h =>
      match spc st with
      | S_fetch =>
          Some (sensor_moves
                  (with_s_data st
                     {| temp := store_channel (temp (s_data st)) t;
                        press := store_channel (press (s_data st)) p;
                        humidity := store_channel (humidity (s_data st)) h |})
                  S_lock
                  [(sensor_sample_fetch, f);
                   (sensor_channel_get SENSOR_CHAN_AMBIENT_TEMP, ret t);
                   (sensor_channel_get SENSOR_CHAN_PRESS, ret p);
                   (sensor_channel_get SENSOR_CHAN_HUMIDITY, ret h)])
      | _ => None
      end
  | a_sensor_lock rc =>
      match spc st, g_data_mutex st with
      | S_lock, None =>
          if rc =? 0
          then Some (sensor_moves (with_mutex st (Some sensor_tid))
                       (S_store all_slots) [(k_mutex_lock (K_MSEC 500), 0)])
          else None
      | S_lock, Some web_server_tid =>
          if rc =? 0 then None
          else Some (sensor_moves st S_sleep [(k_mutex_lock (K_MSEC 500), rc)])
      | _, _ => None
      end
  | a_sensor_store s =>
      match spc st with
      | S_store todo =>
          match split_at s todo with
          | Some (before, after) =>
              Some (sensor_moves
                      (with_latest st
                         (set s (get s (s_data st)) (g_latest_reading st)))
                      (S_store (before ++ after)) [])
          | None => None
          end
      | _ => None
      end
  | a_sensor_unlock r =>
      match spc st with
      | S_store [] =>
          Some (sensor_moves (publish (with_mutex st None) (s_data st)) S_sleep
                  [(k_mutex_unlock, r)])
      | _ => None
      end
  | a_sensor_sleep r =>
      match spc st with
      | S_sleep => Some (sensor_moves st S_fetch [(k_sleep (K_SECONDS 5), r)])
      | _ => None
      end
  | a_web_start s b l g =>
      match wpc st with
      | W_start =>
          Some (web_moves (with_server_sock st s) W_accept
                  [(socket, s); (bind s WEB_SERVER_PORT, b); (listen s 5, l);
                   (LOG_INF "Web server listening on port %d" WEB_SERVER_PORT,
                    g)])
      | _ => None
      end
  | a_web_accept c =>
      match wpc st with
      | W_accept =>
          Some (web_moves st (if c >=? 0 then H_lock c else W_accept)
                  [(accept (w_server_sock st), c)])
      | _ => None
      end
  | a_web_lock rc =>
      match wpc st, g_data_mutex st with
      | H_lock c, None =>
          if rc =? 0
          then Some (web_moves (with_mutex st (Some web_server_tid))
                       (H_copy c all_slots) [(k_mutex_lock (K_MSEC 500), 0)])
          else None
      | H_lock c, Some sensor_tid =>
          if rc =? 0 then None
          else Some (web_moves st (H_send c error_response)
                       [(k_mutex_lock (K_MSEC 500), rc)])
      | _, _ => None
      end
  | a_web_copy s =>
      match wpc st with
      | H_copy c todo =>
          match split_at s todo with
          | Some (before, after) =>
              Some (web_moves
                      (with_w_data st
                         (set s (get s (g_latest_reading st)) (w_data st)))
                      (H_copy c (before ++ after)) [])
          | None => None
          end
      | _ => None
      end
  | a_web_unlock r =>
      match wpc st with
      | H_copy c [] =>
          Some (web_moves (with_mutex st None) (H_format c)
                  [(k_mutex_unlock, r)])
      | _ => None
      end
  | a_web_format =>
      match wpc st with
      | H_format c =>
          Some (web_moves st (H_send c (format_response (w_data st))) [])
      | _ => None
      end
  | a_web_send r =>
      match wpc st with
      | H_send c response =>
          Some (web_moves st (H_close c)
                  [(send c response (strlen response), r)])
      | _ => None
      end
  | a_web_close r =>
      match wpc st with
      | H_close c => Some (web_moves st W_accept [(close c, r)])
      | _ => None
      end
  end.

(** Run a schedule: a list of actions, first to last. *)
Fixpoint run (rdy : Z) (sched : list action) (st : state) : option state :=
  match sched with
  | [] => Some st
  | a :: sched' =>
      match fire rdy a st with
      | Some st' => run rdy sched' st'
      | None => None
      end
  end.

(* ===================================================================== *)
(** * Part 4: the reader of the round trip, and the response as specified *)
(* ===================================================================== *)

(** ** Reading the three decimal pairs back out of a response *)

Definition is_digit (c : ascii) : bool :=
  let n := nat_of_ascii c in (Nat.leb 48 n && Nat.leb n 57)%bool.

Definition digit_val (c : ascii) : Z := Z.of_nat (nat_of_ascii c) - 48.

(** The longest prefix made of digits, and what follows it. *)
Fixpoint span_digits (s : bytes) : bytes * bytes :=
  match s with
  | [] => ([], [])
  | c :: s' =>
      if is_digit c
      then let (ds, r) := span_digits s' in (c :: ds, r)
      else ([], s)
  end.

Definition atoi_digits (ds : bytes) : Z :=
  fold_left (fun a c => 10 * a + digit_val c) ds 0.

(** Consume the literal [p] at the head of [s]. *)
Fixpoint expect (p s : bytes) : option bytes :=
  match p with
  | [] => Some s
  | c :: p' =>
      match s with
      | [] => None
      | c' :: s' => if Ascii.eqb c c' then expect p' s' else None
      end
  end.

Definition parse_unsigned (s : bytes) : option (Z * bytes) :=
  match span_digits s with
  | ([], _) => None
  | (ds, r) => Some (atoi_digits ds, r)
  end.

Definition parse_int (s : bytes) : option (Z * bytes) :=
  match s with
  | [] => None
  | c :: s' =>
      if Ascii.eqb c "-" then
        match parse_unsigned s' with
        | Some (n, r) => Some (- n, r)
        | None => None
        end
      else parse_unsigned s
  end.

(** An integer, a dot, six digits. *)
Definition parse_pair (s : bytes) : option (sensor_value * bytes) :=
  match parse_int s with
  | None => None
  | Some (i, r) =>
      match expect ["."%char] r with
      | None => None
      | Some r' =>
          let (ds, r'') := span_digits r' in
          if Nat.eqb (List.length ds) 6
          then Some ({| val1 := i; val2 := atoi_digits ds |}, r'')
          else None
      end
  end.

Definition http_header : bytes :=
  lit "HTTP/1.1 200 OK" ++ CRLF ++
  lit "Content-Type: text/html" ++ CRLF ++ CRLF.

Definition body_open : bytes :=
  lit "<html><head><title>Weather Station</title></head><body><h1>Weather Station</h1><p>Temperature: ".
Definition body_mid1 : bytes := lit " C</p><p>Pressure: ".
Definition body_mid2 : bytes := lit " kPa</p><p>Humidity: ".
Definition body_close : bytes := lit " %</p></body></html>".

Definition parse_body (s : bytes) : option sensor_reading :=
  match expect body_open s with
  | None => None
  | Some s1 =>
  match parse_pair s1 with
  | None => None
  | Some (t, s2) =>
  match expect body_mid1 s2 with
  | None => None
  | Some s3 =>
  match parse_pair s3 with
  | None => None
  | Some (p, s4) =>
  match expect body_mid2 s4 with
  | None => None
  | Some s5 =>
  match parse_pair s5 with
  | None => None
  | Some (h, s6) =>
  match expect body_close s6 with
  | Some [] => Some {| temp := t; press := p; humidity := h |}
  | _ => None
  end end end end end end end.

(** The body of a response: what follows the header and the blank line. *)
Definition body_of (response : bytes) : option bytes :=
  expect http_header response.

(** ** The response as the specification words it *)

(** The zero-padded six-digit fractional part: the six decimal digits of
    the count of millionths, most significant first. *)
Definition spec_six_digits (v : Z) : bytes :=
  map (fun k => digit_char ((v / 10 ^ k) mod 10)) [5; 4; 3; 2; 1; 0].

(** A field: the integer part, a dot, the six-digit fractional part. *)
Definition spec_field (v : sensor_value) : bytes :=
  fmt_d (val1 v) ++ ["."%char] ++ spec_six_digits (val2 v).

Definition spec_body (r : sensor_reading) : bytes :=
  body_open ++ spec_field (temp r) ++
  body_mid1 ++ spec_field (press r) ++
  body_mid2 ++ spec_field (humidity r) ++
  body_close.

Definition spec_response (r : sensor_reading) : bytes :=
  http_header ++ spec_body r.

(* ===================================================================== *)
(** * Part 5: definitions used by the statements and proofs *)
(* ===================================================================== *)

(** [needle] occurs in [hay]. *)
Fixpoint starts_with (p s : bytes) : bool :=
  match p, s with
  | [], _ => true
  | _ :: _, [] => false
  | c :: p', c' :: s' => (Ascii.eqb c c' && starts_with p' s')%bool
  end.

Fixpoint occurs (needle hay : bytes) : bool :=
  (starts_with needle hay ||
   match hay with
   | [] => false
   | _ :: hay' => occurs needle hay'
   end)%bool.

(** How many times [close] was called on [sock]. *)
Definition is_close (sock : Z) (ev : event) : bool :=
  match fst ev with
  | close s => s =? sock
  | _ => false
  end.

Definition count_close (sock : Z) (evs : list event) : nat :=
  List.length (filter (is_close sock) evs).

(** The text [snprintf] formats before it cuts it to the buffer. *)
Definition code_field (v : sensor_value) : bytes :=
  fmt_d (val1 v) ++ ["."%char] ++ fmt_06d (val2 v).

Definition full_body (r : sensor_reading) : bytes :=
  body_open ++ code_field (temp r) ++
  body_mid1 ++ code_field (press r) ++
  body_mid2 ++ code_field (humidity r) ++
  body_close.

Definition full_text (r : sensor_reading) : bytes := http_header ++ full_body r.

(** The value of a digit string given least significant digit first. *)
Definition le_value (l : bytes) : Z :=
  fold_right (fun c a => 10 * a + digit_val c) 0 l.

(** [f] digits, least significant first, zeros included. *)
Fixpoint fixed_digits (f : nat) (n : Z) : bytes :=
  match f with
  | O => []
  | S f' => digit_char (n mod 10) :: fixed_digits f' (n / 10)
  end.

(** [s] does not go on with a digit. *)
Definition stops (s : bytes) : Prop :=
  match s with
  | [] => True
  | c :: _ => is_digit c = false
  end.

(** An environment in which every call returns [-11] ([-EAGAIN]) and the
    driver stores nothing, and one in which every call returns 0. *)
Definition env_eagain : env := fun _ => {| ret := -11; out := None |}.
Definition env_zero : env := fun _ => {| ret := 0; out := None |}.

(** A temperature of -0.5 degrees as the sensor API represents it. *)
Definition below_zero_reading : sensor_reading :=
  {| temp := {| val1 := 0; val2 := -500000 |};
     press := zero_value; humidity := zero_value |}.

(** Every member at [INT_MIN]. *)
Definition extreme_reading : sensor_reading :=
  let v := {| val1 := INT_MIN; val2 := INT_MIN |} in
  {| temp := v; press := v; humidity := v |}.

Definition world_with (r : sensor_reading) : world :=
  {| latest_reading := r; trace := []; clock := 0 |}.

(** An environment in which every call returns 0 and the driver stores
    [INT_MIN] in both members. *)
Definition env_extreme : env :=
  fun _ => {| ret := 0; out := Some {| val1 := INT_MIN; val2 := INT_MIN |} |}.

Definition fetched (data : sensor_reading) (e : env) (w : world) : sensor_reading :=
  {| temp := store_channel (temp data) (answer_at e w 1);
     press := store_channel (press data) (answer_at e w 2);
     humidity := store_channel (humidity data) (answer_at e w 3) |}.

Definition fetch_events (e : env) (w : world) : list event :=
  [ (sensor_sample_fetch, ret (answer_at e w 0));
    (sensor_channel_get SENSOR_CHAN_AMBIENT_TEMP, ret (answer_at e w 1));
    (sensor_channel_get SENSOR_CHAN_PRESS, ret (answer_at e w 2));
    (sensor_channel_get SENSOR_CHAN_HUMIDITY, ret (answer_at e w 3)) ].

(** The calls of one run of [handle_client] on [client]: either the 200
    path or the 503 path, each ending with [close]. *)
Inductive handled (client : Z) : list event -> Prop :=
| handled_200 data r1 r2 r3 :
    handled client
      [ (k_mutex_lock 500, 0);
        (k_mutex_unlock, r1);
        (send client (format_response data) (strlen (format_response data)), r2);
        (close client, r3) ]
| handled_503 rc r2 r3 :
    rc <> 0 ->
    handled client
      [ (k_mutex_lock 500, rc);
        (send client error_response (strlen error_response), r2);
        (close client, r3) ].

(** The calls of one turn of the accept loop: an [accept] that fails and
    nothing else, or an [accept] that yields a connection followed by the
    whole of its handling. *)
Inductive turn (server_sock : Z) : list event -> Prop :=
| turn_refused c :
    c < 0 -> turn server_sock [(accept server_sock, c)]
| turn_served c h :
    0 <= c -> handled c h -> turn server_sock ((accept server_sock, c) :: h).

(** [n] turns, one after the other. *)
Inductive serial (server_sock : Z) : nat -> list event -> Prop :=
| serial_nil : serial server_sock 0 []
| serial_cons n t rest :
    turn server_sock t -> serial server_sock n rest ->
    serial server_sock (S n) (t ++ rest).

(** The four calls [web_server_thread] makes before its loop. *)
Definition setup_events (e : env) (w : world) : list event :=
  let s := ret (answer_at e w 0) in
  [ (socket, s);
    (bind s 80, ret (answer_at e w 1));
    (listen s 5, ret (answer_at e w 2));
    (LOG_INF "Web server listening on port %d" 80, ret (answer_at e w 3)) ].

(** The world when the loop is entered. *)
Definition after_setup (e : env) (w : world) : world :=
  {| latest_reading := latest_reading w;
     trace := trace w ++ setup_events e w;
     clock := 4 + clock w |}.

Definition is_log_err (ev : event) : bool :=
  match fst ev with
  | LOG_ERR _ => true
  | _ => false
  end.

(** A response buffer that is the 503 text or the formatting of a
    published reading. *)
Definition whole_response (pub : list sensor_reading) (buf : bytes) : Prop :=
  buf = error_response \/ exists d, In d pub /\ buf = format_response d.

(** Every [send] in [evs] carries such a buffer. *)
Definition sends_whole (pub : list sensor_reading) (evs : list event) : Prop :=
  forall c buf len r, In (send c buf len, r) evs -> whole_response pub buf.

Definition in_store (pc : sensor_pc) : bool :=
  match pc with
  | S_store _ => true
  | _ => false
  end.

Definition in_copy (pc : web_pc) : bool :=
  match pc with
  | H_copy _ _ => true
  | _ => false
  end.

(** Who should hold [data_mutex], going by where the threads stand. *)
Definition holder (st : state) : option thread :=
  if in_store (spc st) then Some sensor_tid
  else if in_copy (wpc st) then Some web_server_tid
  else None.

(** What holds in every reachable state of the two threads. *)
Record inv (st : state) : Prop := {
  inv_mutex : g_data_mutex st = holder st;
  inv_exclusive : (in_store (spc st) && in_copy (wpc st))%bool = false;
  inv_storing :
    forall todo, spc st = S_store todo ->
    forall s, ~ In s todo -> get s (g_latest_reading st) = get s (s_data st);
  inv_stored :
    in_store (spc st) = false ->
    g_latest_reading st = hd zero_reading (published st);
  inv_copying :
    forall c todo, wpc st = H_copy c todo ->
    forall s, ~ In s todo -> get s (w_data st) = get s (g_latest_reading st);
  inv_copied :
    forall c, wpc st = H_format c -> In (w_data st) (published st);
  inv_sending :
    forall c response, wpc st = H_send c response ->
    whole_response (published st) response;
  inv_sent : sends_whole (published st) (g_trace st);
  inv_published : published st <> []
}.

(** The calls only a turn of the sampler's loop makes. *)
Definition is_sampling (ev : event) : bool :=
  match fst ev with
  | sensor_sample_fetch | sensor_channel_get _ | k_sleep _ => true
  | _ => false
  end.

(** What holds in every reachable state when the device is not ready. *)
Record idle_inv (st : state) : Prop := {
  idle_pc : spc st = S_start \/ spc st = S_returned;
  idle_mutex :
    g_data_mutex st = if in_copy (wpc st) then Some web_server_tid else None;
  idle_latest : g_latest_reading st = zero_reading;
  idle_published : published st = [zero_reading];
  idle_copying :
    forall c todo, wpc st = H_copy c todo ->
    forall s, ~ In s todo -> get s (w_data st) = get s zero_reading;
  idle_copied : forall c, wpc st = H_format c -> w_data st = zero_reading;
  idle_sending :
    forall c response, wpc st = H_send c response ->
    response = format_response zero_reading;
  idle_sent :
    forall c buf len r, In (send c buf len, r) (g_trace st) ->
    buf = format_response zero_reading /\ len = strlen buf;
  idle_no_sampling :
    forallb (fun ev => negb (is_sampling ev)) (g_trace st) = true;
  idle_logged :
    spc st = S_returned ->
    exists r, In (LOG_ERR "BME280 device not ready", r) (g_trace st)
}.

Definition driver_stores (v1 v2 : Z) : answer :=
  {| ret := 0; out := Some {| val1 := v1; val2 := v2 |} |}.

(** A schedule in which the sampler publishes the example reading while a
    connection waits, and the handler then copies it. *)
Definition publish_then_read : list action :=
  [ a_sensor_check 0; a_web_start 3 0 0 0; a_web_accept 4;
    a_sensor_fetch 0 (driver_stores 23 456000) (driver_stores 101 325000)
      (driver_stores 45 120000);
    a_sensor_lock 0;
    a_sensor_store temp_val1; a_sensor_store temp_val2;
    a_sensor_store press_val1; a_sensor_store press_val2;
    a_sensor_store humidity_val1; a_sensor_store humidity_val2;
    a_sensor_unlock 0;
    a_web_lock 0;
    a_web_copy humidity_val2; a_web_copy humidity_val1;
    a_web_copy press_val2; a_web_copy press_val1;
    a_web_copy temp_val2; a_web_copy temp_val1;
    a_web_unlock 0 ].

(** A schedule in which the device is not ready and a connection has just
    been accepted. *)
Definition not_ready_then_accept : list action :=
  [ a_sensor_check 0; a_web_start 3 0 0 0; a_web_accept 4 ].

Definition state_after (rdy : Z) (sched : list action) : state :=
  match run rdy sched (initial zero_reading zero_reading 0) with
  | Some st => st
  | None => initial zero_reading zero_reading 0
  end.

(** The steps of one run of [handle_client] that obtains the lock, and of
    one that does not, with the values the calls return. *)
Definition handler_steps_200 (r1 r2 r3 : Z) : list action :=
  [ a_web_lock 0;
    a_web_copy temp_val1; a_web_copy temp_val2;
    a_web_copy press_val1; a_web_copy press_val2;
    a_web_copy humidity_val1; a_web_copy humidity_val2;
    a_web_unlock r1; a_web_format; a_web_send r2; a_web_close r3 ].

Definition handler_steps_503 (rc r2 r3 : Z) : list action :=
  [ a_web_lock rc; a_web_send r2; a_web_close r3 ].

(** A state in which the handler is about to run on [client]. *)
Definition at_handler (client : Z) (latest : sensor_reading)
    (owner : option thread) (pc : sensor_pc) (sd wd : sensor_reading)
    (sock : Z) (tr : list event) (pub : list sensor_reading) : state :=
  {| g_latest_reading := latest; g_data_mutex := owner;
     spc := pc; s_data := sd;
     wpc := H_lock client; w_server_sock := sock; w_data := wd;
     g_trace := tr; published := pub |}.

(** The state the handler leaves behind: back at [accept], the mutex free,
    [latest_reading] untouched. *)
Definition handler_done (owner : option thread) (latest : sensor_reading)
    (pc : sensor_pc) (sd wd : sensor_reading) (sock : Z)
    (tr : list event) (pub : list sensor_reading) : state :=
  {| g_latest_reading := latest; g_data_mutex := owner;
     spc := pc; s_data := sd;
     wpc := W_accept; w_server_sock := sock; w_data := wd;
     g_trace := tr; published := pub |}.

(** ** Counting calls in a trace *)

Definition is_unlock (ev : event) : bool :=
  match fst ev with
  | k_mutex_unlock => true
  | _ => false
  end.

(** A [k_mutex_lock] that returned 0. *)
Definition is_lock_ok (ev : event) : bool :=
  match fst ev with
  | k_mutex_lock _ => snd ev =? 0
  | _ => false
  end.

Definition is_sleep (ev : event) : bool :=
  match fst ev with
  | k_sleep _ => true
  | _ => false
  end.

Definition count (p : event -> bool) (evs : list event) : nat :=
  List.length (filter p evs).

(** The sockets passed to [close], in order. *)
Definition closed_socks (evs : list event) : list Z :=
  flat_map (fun ev => match fst ev with
                      | close s => [s]
                      | _ => []
                      end) evs.

(** The connections [accept] returned, in order. *)
Definition accepted_socks (evs : list event) : list Z :=
  flat_map (fun ev => match fst ev with
                      | accept _ => if snd ev >=? 0 then [snd ev] else []
                      | _ => []
                      end) evs.

(** The calls of one turn of the sampler's loop: with the store and the
    unlock when the lock was obtained, without them when it was not. *)
Inductive sample_turn : list event -> Prop :=
| sample_published f t p h r1 r2 :
    sample_turn
      [ (sensor_sample_fetch, f);
        (sensor_channel_get SENSOR_CHAN_AMBIENT_TEMP, t);
        (sensor_channel_get SENSOR_CHAN_PRESS, p);
        (sensor_channel_get SENSOR_CHAN_HUMIDITY, h);
        (k_mutex_lock 500, 0);
        (k_mutex_unlock, r1);
        (k_sleep 5000, r2) ]
| sample_skipped f t p h rc r2 :
    rc <> 0 ->
    sample_turn
      [ (sensor_sample_fetch, f);
        (sensor_channel_get SENSOR_CHAN_AMBIENT_TEMP, t);
        (sensor_channel_get SENSOR_CHAN_PRESS, p);
        (sensor_channel_get SENSOR_CHAN_HUMIDITY, h);
        (k_mutex_lock 500, rc);
        (k_sleep 5000, r2) ].

Inductive sampled : nat -> list event -> Prop :=
| sampled_nil : sampled 0 []
| sampled_cons n t rest :
    sample_turn t -> sampled n rest -> sampled (S n) (t ++ rest).

Definition is_nul (c : ascii) : bool := Ascii.eqb c Ascii.zero.

Definition no_nul (s : bytes) : bool := forallb (fun c => negb (is_nul c)) s.

Definition is_web_action (a : action) : bool :=
  match a with
  | a_web_start _ _ _ _ | a_web_accept _ | a_web_lock _ | a_web_copy _
  | a_web_unlock _ | a_web_format | a_web_send _ | a_web_close _ => true
  | _ => false
  end.

(** An environment for two turns of the sampler: the driver stores a value
    on each channel in the first turn and nothing in the second, and every
    call returns 0. *)
Definition env_then_silent : env :=
  fun i =>
    {| ret := 0;
       out := if Nat.ltb i 4
              then Some {| val1 := Z.of_nat i; val2 := 500000 |}
              else None |}.

(** ** A reader for any response *)

(** An integer, a dot, an integer that may carry a sign and leading
    zeros. *)
Definition parse_pair_signed (s : bytes) : option (sensor_value * bytes) :=
  match parse_int s with
  | None => None
  | Some (i, r) =>
      match expect ["."%char] r with
      | None => None
      | Some r' =>
          match parse_int r' with
          | None => None
          | Some (f, r'') => Some ({| val1 := i; val2 := f |}, r'')
          end
      end
  end.

(** Read the three pairs of a response, without looking at what follows
    the last one. *)
Definition parse_fields (response : bytes) : option sensor_reading :=
  match expect (http_header ++ body_open) response with
  | None => None
  | Some s1 =>
  match parse_pair_signed s1 with
  | None => None
  | Some (t, s2) =>
  match expect body_mid1 s2 with
  | None => None
  | Some s3 =>
  match parse_pair_signed s3 with
  | None => None
  | Some (p, s4) =>
  match expect body_mid2 s4 with
  | None => None
  | Some s5 =>
  match parse_pair_signed s5 with
  | None => None
  | Some (h, _) => Some {| temp := t; press := p; humidity := h |}
  end end end end end end.

(* ===================================================================== *)
(** * Proofs, part 1: formatting *)
(* ===================================================================== *)

Lemma vformat_response (r : sensor_reading) :
  vformat response_format (response_args r) = full_text r.
Proof.
  unfold full_text, full_body, code_field.
  rewrite <- !app_assoc. reflexivity.
Qed.

Lemma format_response_firstn (r : sensor_reading) :
  format_response r = firstn 255 (full_text r).
Proof.
  unfold format_response, snprintf. rewrite vformat_response. reflexivity.
Qed.

(** ** Digits *)

Lemma digit_cases (d : Z) :
  0 <= d < 10 ->
  d = 0 \/ d = 1 \/ d = 2 \/ d = 3 \/ d = 4 \/
  d = 5 \/ d = 6 \/ d = 7 \/ d = 8 \/ d = 9.
Proof. lia. Qed.

Ltac each_digit d H :=
  let C := fresh in
  pose proof (digit_cases d H) as C;
  repeat (destruct C as [C | C]; [subst d; reflexivity |]);
  subst d; reflexivity.

Lemma is_digit_digit_char (d : Z) : 0 <= d < 10 -> is_digit (digit_char d) = true.
Proof. intros H. each_digit d H. Qed.

Lemma digit_val_digit_char (d : Z) : 0 <= d < 10 -> digit_val (digit_char d) = d.
Proof. intros H. each_digit d H. Qed.

Lemma rev_digits_length (f : nat) (n : Z) : (List.length (rev_digits f n) <= f)%nat.
Proof.
  revert n; induction f as [|f IH]; intros n; simpl.
  - lia.
  - destruct (n / 10 =? 0); simpl; [lia | specialize (IH (n / 10)); lia].
Qed.

Lemma rev_digits_nonempty (f : nat) (n : Z) : rev_digits (S f) n <> [].
Proof. simpl; discriminate. Qed.

Lemma rev_digits_all_digits (f : nat) (n : Z) :
  forallb is_digit (rev_digits f n) = true.
Proof.
  revert n; induction f as [|f IH]; intros n; simpl; [reflexivity|].
  rewrite is_digit_digit_char by (apply Z.mod_pos_bound; lia).
  destruct (n / 10 =? 0); simpl; auto.
Qed.

Lemma le_value_rev_digits (f : nat) (n : Z) :
  0 <= n < 10 ^ Z.of_nat f -> le_value (rev_digits f n) = n.
Proof.
  revert n; induction f as [|f IH]; intros n Hn.
  - simpl in *. lia.
  - cbn [rev_digits le_value fold_right].
    rewrite digit_val_digit_char by (apply Z.mod_pos_bound; lia).
    assert (Hq : 0 <= n / 10 < 10 ^ Z.of_nat f).
    { rewrite Nat2Z.inj_succ, Z.pow_succ_r in Hn by lia.
      split; [apply Z.div_pos; lia | apply Z.div_lt_upper_bound; lia]. }
    destruct (n / 10 =? 0) eqn:E.
    + apply Z.eqb_eq in E. cbn. pose proof (Z.div_mod n 10). lia.
    + fold (le_value (rev_digits f (n / 10))). rewrite IH by exact Hq.
      pose proof (Z.div_mod n 10). lia.
Qed.

Lemma atoi_digits_acc (l : bytes) (a : Z) :
  fold_left (fun a c => 10 * a + digit_val c) l a
  = fold_right (fun c a => 10 * a + digit_val c) a (rev l).
Proof. symmetry. apply fold_left_rev_right. Qed.

Lemma atoi_digits_rev (l : bytes) : atoi_digits (rev l) = le_value l.
Proof.
  unfold atoi_digits, le_value. rewrite atoi_digits_acc, rev_involutive.
  reflexivity.
Qed.

Lemma atoi_utoa (n : Z) : 0 <= n < 10 ^ 10 -> atoi_digits (utoa n) = n.
Proof.
  intros H. unfold utoa. rewrite atoi_digits_rev.
  apply le_value_rev_digits. exact H.
Qed.

Lemma utoa_all_digits (n : Z) : forallb is_digit (utoa n) = true.
Proof.
  unfold utoa. rewrite forallb_forall. intros c Hc.
  apply in_rev in Hc.
  pose proof (rev_digits_all_digits 10 n) as H.
  rewrite forallb_forall in H. auto.
Qed.

Lemma utoa_nonempty (n : Z) : utoa n <> [].
Proof.
  unfold utoa. intros H.
  apply (f_equal (@List.length ascii)) in H.
  rewrite length_rev in H. simpl in H. discriminate.
Qed.

Lemma utoa_length (n : Z) : (List.length (utoa n) <= 10)%nat.
Proof. unfold utoa. rewrite length_rev. apply rev_digits_length. Qed.

(** Below ten to the [S f], [S f] turns of the loop are as good as more. *)
Lemma rev_digits_fuel (f k : nat) (n : Z) :
  0 <= n < 10 ^ Z.of_nat (S f) ->
  rev_digits (S f + k) n = rev_digits (S f) n.
Proof.
  revert n; induction f as [|f IH]; intros n Hn.
  - cbn [Nat.add rev_digits].
    replace (n / 10) with 0
      by (symmetry; apply Z.div_small; change (10 ^ Z.of_nat 1) with 10 in Hn; lia).
    reflexivity.
  - change (S (S f) + k)%nat with (S (S f + k)).
    cbn [rev_digits]. destruct (n / 10 =? 0); [reflexivity|].
    f_equal. fold (rev_digits (S f + k) (n / 10)).
    fold (rev_digits (S f) (n / 10)).
    apply IH.
    rewrite (Nat2Z.inj_succ (S f)), Z.pow_succ_r in Hn by lia.
    split; [apply Z.div_pos; lia | apply Z.div_lt_upper_bound; lia].
Qed.

Lemma fixed_digits_zero (f : nat) : fixed_digits f 0 = repeat "0"%char f.
Proof. induction f as [|f IH]; simpl; [reflexivity|]. f_equal. exact IH. Qed.

Lemma rev_digits_padded (f : nat) (n : Z) :
  rev_digits f n ++ repeat "0"%char (f - List.length (rev_digits f n))
  = fixed_digits f n.
Proof.
  revert n; induction f as [|f IH]; intros n; [reflexivity|].
  cbn [rev_digits fixed_digits]. destruct (n / 10 =? 0) eqn:E.
  - apply Z.eqb_eq in E. rewrite E, fixed_digits_zero. simpl.
    rewrite Nat.sub_0_r. reflexivity.
  - simpl. f_equal. apply IH.
Qed.

Lemma spec_six_digits_fixed (v : Z) : spec_six_digits v = rev (fixed_digits 6 v).
Proof.
  unfold spec_six_digits. cbn [fixed_digits rev map app].
  rewrite !Z.div_div by lia.
  change (10 ^ 0) with 1. rewrite Z.div_1_r.
  reflexivity.
Qed.

Lemma utoa_micro_length (v : Z) :
  0 <= v <= 999999 -> (List.length (utoa v) <= 6)%nat.
Proof.
  intros H. unfold utoa. rewrite length_rev.
  change 10%nat with (S 5 + 4)%nat.
  rewrite rev_digits_fuel by (change (10 ^ Z.of_nat 6) with 1000000; lia).
  apply rev_digits_length.
Qed.

(** On a count of millionths, [%06d] prints the six digits. *)
Lemma fmt_06d_micro (v : Z) : 0 <= v <= 999999 -> fmt_06d v = spec_six_digits v.
Proof.
  intros H. unfold fmt_06d, fmt_0d, sign_of.
  destruct (v <? 0) eqn:E; [apply Z.ltb_lt in E; lia|].
  rewrite Z.abs_eq by lia. cbn [app List.length]. rewrite Nat.sub_0_r.
  rewrite spec_six_digits_fixed, <- rev_digits_padded, rev_app_distr.
  unfold utoa. rewrite length_rev.
  change 10%nat with (S 5 + 4)%nat.
  rewrite rev_digits_fuel by (change (10 ^ Z.of_nat 6) with 1000000; lia).
  rewrite rev_repeat. reflexivity.
Qed.

Lemma spec_six_digits_length (v : Z) : List.length (spec_six_digits v) = 6%nat.
Proof. reflexivity. Qed.


(** ** Lengths *)

Lemma sign_of_length (v : Z) : (List.length (sign_of v) <= 1)%nat.
Proof. unfold sign_of. destruct (v <? 0); simpl; lia. Qed.

Lemma fmt_d_length (v : Z) : (List.length (fmt_d v) <= 11)%nat.
Proof.
  unfold fmt_d. rewrite length_app.
  pose proof (sign_of_length v). pose proof (utoa_length (Z.abs v)). lia.
Qed.

Lemma code_field_length (v : sensor_value) :
  List.length (code_field v)
  = (List.length (fmt_d (val1 v)) + 1 + List.length (fmt_06d (val2 v)))%nat.
Proof. unfold code_field. rewrite !length_app. simpl. lia. Qed.

Lemma full_text_length (r : sensor_reading) :
  List.length (full_text r)
  = (199 + List.length (code_field (temp r))
         + List.length (code_field (press r))
         + List.length (code_field (humidity r)))%nat.
Proof.
  unfold full_text, full_body. rewrite !length_app.
  change (List.length http_header) with 44%nat.
  change (List.length body_open) with 95%nat.
  change (List.length body_mid1) with 19%nat.
  change (List.length body_mid2) with 21%nat.
  change (List.length body_close) with 20%nat.
  lia.
Qed.

Lemma code_field_micro_length (v : sensor_value) :
  micro v -> (List.length (code_field v) <= 18)%nat.
Proof.
  intros H. rewrite code_field_length, fmt_06d_micro by exact H.
  rewrite spec_six_digits_length. pose proof (fmt_d_length (val1 v)). lia.
Qed.

Lemma full_text_micro_length (r : sensor_reading) :
  reading_micro r -> (List.length (full_text r) <= 253)%nat.
Proof.
  intros (Ht & Hp & Hh). rewrite full_text_length.
  pose proof (code_field_micro_length _ Ht).
  pose proof (code_field_micro_length _ Hp).
  pose proof (code_field_micro_length _ Hh). lia.
Qed.

Lemma format_response_micro (r : sensor_reading) :
  reading_micro r -> format_response r = full_text r.
Proof.
  intros H. rewrite format_response_firstn.
  apply firstn_all2. pose proof (full_text_micro_length r H). lia.
Qed.

(** ** Reading back *)

Lemma expect_app (p s : bytes) : expect p (p ++ s) = Some s.
Proof.
  induction p as [|c p IH]; simpl; [reflexivity|].
  rewrite Ascii.eqb_refl. exact IH.
Qed.

Lemma span_digits_app (ds rest : bytes) :
  forallb is_digit ds = true -> stops rest ->
  span_digits (ds ++ rest) = (ds, rest).
Proof.
  intros Hd Hr. induction ds as [|c ds IH]; simpl in *.
  - destruct rest as [|c r]; [reflexivity|]. simpl in *. rewrite Hr. reflexivity.
  - apply andb_true_iff in Hd. destruct Hd as [Hc Hd].
    rewrite Hc, (IH Hd). reflexivity.
Qed.

Lemma parse_unsigned_utoa (n : Z) (rest : bytes) :
  0 <= n < 10 ^ 10 -> stops rest ->
  parse_unsigned (utoa n ++ rest) = Some (n, rest).
Proof.
  intros Hn Hr. unfold parse_unsigned.
  rewrite span_digits_app by (auto using utoa_all_digits).
  pose proof (utoa_nonempty n) as Hne.
  rewrite <- (atoi_utoa n Hn) at 2.
  destruct (utoa n); [contradiction | reflexivity].
Qed.

Lemma utoa_head_digit (n : Z) :
  exists c ds, utoa n = c :: ds /\ is_digit c = true.
Proof.
  pose proof (utoa_all_digits n) as H. pose proof (utoa_nonempty n) as Hne.
  destruct (utoa n) as [|c ds]; [contradiction|].
  exists c, ds. simpl in H. apply andb_true_iff in H. tauto.
Qed.

Lemma digit_not_minus (c : ascii) : is_digit c = true -> Ascii.eqb c "-" = false.
Proof.
  intros H. destruct (Ascii.eqb c "-") eqn:E; [|reflexivity].
  apply Ascii.eqb_eq in E. subst c. discriminate H.
Qed.

Lemma parse_int_fmt_d (v : Z) (rest : bytes) :
  int32 v -> stops rest -> parse_int (fmt_d v ++ rest) = Some (v, rest).
Proof.
  unfold int32, INT_MIN, INT_MAX. intros Hv Hr. unfold fmt_d, sign_of.
  destruct (v <? 0) eqn:E.
  - apply Z.ltb_lt in E. cbn [app parse_int].
    rewrite Ascii.eqb_refl, parse_unsigned_utoa by (auto; lia).
    do 2 f_equal. lia.
  - apply Z.ltb_ge in E. cbn [app].
    destruct (utoa_head_digit (Z.abs v)) as (c & ds & Hu & Hc).
    pose proof (parse_unsigned_utoa (Z.abs v) rest ltac:(lia) Hr) as Hp.
    rewrite Hu in *. cbn [app parse_int].
    rewrite (digit_not_minus c Hc). cbn [app] in Hp. rewrite Hp.
    do 2 f_equal. lia.
Qed.

Lemma spec_six_digits_all_digits (v : Z) : forallb is_digit (spec_six_digits v) = true.
Proof.
  unfold spec_six_digits. cbn [map forallb].
  rewrite !is_digit_digit_char by (apply Z.mod_pos_bound; lia).
  reflexivity.
Qed.

Lemma atoi_digits_zeros (k : nat) (ds : bytes) :
  atoi_digits (repeat "0"%char k ++ ds) = atoi_digits ds.
Proof.
  unfold atoi_digits. rewrite fold_left_app. f_equal.
  induction k as [|k IH]; [reflexivity|].
  change (repeat "0"%char (S k)) with (["0"%char] ++ repeat "0"%char k).
  rewrite fold_left_app. exact IH.
Qed.

Lemma atoi_six_digits (v : Z) : 0 <= v <= 999999 -> atoi_digits (spec_six_digits v) = v.
Proof.
  intros H. rewrite <- fmt_06d_micro by exact H.
  unfold fmt_06d, fmt_0d, sign_of.
  destruct (v <? 0) eqn:E; [apply Z.ltb_lt in E; lia|].
  cbn [app]. rewrite atoi_digits_zeros, Z.abs_eq by lia.
  apply atoi_utoa. lia.
Qed.

Lemma parse_pair_code_field (v : sensor_value) (rest : bytes) :
  sensor_value_ok v -> micro v -> stops rest ->
  parse_pair (code_field v ++ rest) = Some (v, rest).
Proof.
  intros [H1 _] Hm Hr. unfold code_field, parse_pair.
  rewrite fmt_06d_micro by exact Hm.
  rewrite <- !app_assoc.
  rewrite parse_int_fmt_d by (auto; reflexivity).
  cbn [app expect]. rewrite Ascii.eqb_refl.
  rewrite span_digits_app by (auto using spec_six_digits_all_digits).
  rewrite spec_six_digits_length, atoi_six_digits by exact Hm.
  destruct v; reflexivity.
Qed.

Lemma parse_body_full_body (r : sensor_reading) :
  reading_ok r -> reading_micro r -> parse_body (full_body r) = Some r.
Proof.
  intros (Ot & Op & Oh) (Mt & Mp & Mh). unfold full_body, parse_body.
  rewrite expect_app.
  rewrite parse_pair_code_field by (auto; reflexivity).
  rewrite expect_app.
  rewrite parse_pair_code_field by (auto; reflexivity).
  rewrite expect_app.
  rewrite parse_pair_code_field by (auto; reflexivity).
  rewrite <- (app_nil_r body_close) at 2. rewrite expect_app.
  destruct r; reflexivity.
Qed.

Lemma body_of_full_text (r : sensor_reading) : body_of (full_text r) = Some (full_body r).
Proof. unfold body_of, full_text. apply expect_app. Qed.

(** Two readings with the same response are the same reading. *)
Lemma format_response_injective (r1 r2 : sensor_reading) :
  reading_ok r1 -> reading_micro r1 ->
  reading_ok r2 -> reading_micro r2 ->
  format_response r1 = format_response r2 -> r1 = r2.
Proof.
  intros O1 M1 O2 M2 E.
  rewrite !format_response_micro in E by assumption.
  pose proof (parse_body_full_body r1 O1 M1) as P1.
  pose proof (parse_body_full_body r2 O2 M2) as P2.
  apply (f_equal body_of) in E. rewrite !body_of_full_text in E.
  assert (B : full_body r1 = full_body r2) by congruence.
  rewrite B in P1. congruence.
Qed.

(* ===================================================================== *)
(** * Proofs, part 2: one thread at a time *)
(* ===================================================================== *)

Lemma skipn_app_length {A} (l m : list A) : skipn (List.length l) (l ++ m) = m.
Proof. induction l as [|x l IH]; simpl; auto. Qed.

(** If [m] only appends to the trace, [new_events] is what it appended. *)
Lemma new_events_appended {A} (m : M A) (e : env) (w : world) (evs : list event) :
  trace (exec m e w) = trace w ++ evs -> new_events m e w = evs.
Proof. intros H. unfold new_events. rewrite H. apply skipn_app_length. Qed.

Ltac step_m :=
  cbv [handle_client accept_once sensor_cycle sensor_thread web_server_thread
       mbind sys pure load_latest_reading store_latest_reading answer_at];
  cbn [latest_reading trace clock fst snd Nat.add].

(** The run of [handle_client] when the lock is obtained. *)
Lemma handle_client_locked (e : env) (w : world) (client : Z) :
  ret (answer_at e w 0) = 0 ->
  handle_client client e w =
  (tt, {| latest_reading := latest_reading w;
          trace := trace w ++
            [ (k_mutex_lock (K_MSEC 500), 0);
              (k_mutex_unlock, ret (answer_at e w 1));
              (send client (format_response (latest_reading w))
                 (strlen (format_response (latest_reading w))),
               ret (answer_at e w 2));
              (close client, ret (answer_at e w 3)) ];
          clock := 4 + clock w |}).
Proof.
  intros H. step_m. unfold answer_at in H. cbn [Nat.add] in H.
  rewrite H. cbn [Z.eqb latest_reading trace clock].
  rewrite <- !app_assoc. reflexivity.
Qed.

(** The run of [handle_client] when the lock is not obtained. *)
Lemma handle_client_not_locked (e : env) (w : world) (client : Z) :
  ret (answer_at e w 0) <> 0 ->
  handle_client client e w =
  (tt, {| latest_reading := latest_reading w;
          trace := trace w ++
            [ (k_mutex_lock (K_MSEC 500), ret (answer_at e w 0));
              (send client error_response (strlen error_response),
               ret (answer_at e w 1));
              (close client, ret (answer_at e w 2)) ];
          clock := 3 + clock w |}).
Proof.
  intros H. step_m. unfold answer_at in H. cbn [Nat.add] in H.
  apply Z.eqb_neq in H. rewrite H. cbn [latest_reading trace clock].
  rewrite <- !app_assoc. reflexivity.
Qed.

(** ** handle_client *)

(** C1. When the 500 ms wait for [data_mutex] fails, [handle_client] makes
    exactly three calls: the lock attempt, one [send] of the 36 bytes
    [HTTP/1.1 503 Service Unavailable CR LF CR LF] (status line and blank
    line only) on the connection, and [close] of the connection. It then
    returns; [latest_reading] is neither changed nor looked at (the calls are
    the same whatever it holds), and no 200 response is sent. *)
Theorem handle_client_lock_timeout (e : env) (w : world) (client : Z) :
  ret (answer_at e w 0) <> 0 ->
  new_events (handle_client client) e w =
    [ (k_mutex_lock 500, ret (answer_at e w 0));
      (send client
         (lit "HTTP/1.1 503 Service Unavailable" ++ [CR; LF; CR; LF]) 36,
       ret (answer_at e w 1));
      (close client, ret (answer_at e w 2)) ]
  /\ trace (exec (handle_client client) e w)
     = trace w ++ new_events (handle_client client) e w
  /\ latest_reading (exec (handle_client client) e w) = latest_reading w
  /\ forall r : sensor_reading,
       new_events (handle_client client) e
         {| latest_reading := r; trace := trace w; clock := clock w |}
       = new_events (handle_client client) e w.
Proof.
  intros H.
  assert (E : forall w', clock w' = clock w ->
            new_events (handle_client client) e w' =
            [ (k_mutex_lock 500, ret (answer_at e w 0));
              (send client error_response (strlen error_response),
               ret (answer_at e w 1));
              (close client, ret (answer_at e w 2)) ]).
  { intros w' Hc. apply new_events_appended. unfold exec.
    rewrite handle_client_not_locked
      by (unfold answer_at in *; rewrite Hc; exact H).
    unfold answer_at. rewrite Hc. reflexivity. }
  repeat split.
  - apply (E w). reflexivity.
  - rewrite (E w) by reflexivity. unfold exec.
    rewrite handle_client_not_locked by exact H. reflexivity.
  - unfold exec. rewrite handle_client_not_locked by exact H. reflexivity.
  - intros r. rewrite (E w) by reflexivity. apply E. reflexivity.
Qed.

Lemma handle_client_lock_timeout_witness :
  ret (answer_at env_eagain boot 0) <> 0 /\
  new_events (handle_client 7) env_eagain boot =
    [ (k_mutex_lock 500, -11);
      (send 7 (lit "HTTP/1.1 503 Service Unavailable" ++ [CR; LF; CR; LF]) 36,
       -11);
      (close 7, -11) ].
Proof.
  assert (H : ret (answer_at env_eagain boot 0) <> 0) by (simpl; lia).
  split; [exact H|].
  exact (proj1 (handle_client_lock_timeout env_eagain boot 7 H)).
Defined.

(** C2. Every invocation of [handle_client], whatever the lock attempt, the
    [send] and every other call return, calls [close] on its connection
    exactly once, as its last call, and closes nothing else. *)
Theorem handle_client_closes_once (e : env) (w : world) (client : Z) :
  trace (exec (handle_client client) e w)
  = trace w ++ new_events (handle_client client) e w
  /\ count_close client (new_events (handle_client client) e w) = 1%nat
  /\ (exists before r,
        new_events (handle_client client) e w = before ++ [(close client, r)])
  /\ (forall sock r,
        In (close sock, r) (new_events (handle_client client) e w) ->
        sock = client).
Proof.
  destruct (Z.eq_dec (ret (answer_at e w 0)) 0) as [H | H].
  - pose proof (handle_client_locked e w client H) as R.
    assert (T : trace (exec (handle_client client) e w) = trace w ++
              [ (k_mutex_lock (K_MSEC 500), 0);
                (k_mutex_unlock, ret (answer_at e w 1));
                (send client (format_response (latest_reading w))
                   (strlen (format_response (latest_reading w))),
                 ret (answer_at e w 2));
                (close client, ret (answer_at e w 3)) ])
      by (unfold exec; rewrite R; reflexivity).
    rewrite (new_events_appended _ _ _ _ T). repeat split.
    + exact T.
    + unfold count_close. cbn [filter is_close fst]. rewrite Z.eqb_refl.
      reflexivity.
    + eexists [_; _; _], _. reflexivity.
    + intros sock r [I | [I | [I | [I | []]]]]; congruence.
  - pose proof (handle_client_not_locked e w client H) as R.
    assert (T : trace (exec (handle_client client) e w) = trace w ++
              [ (k_mutex_lock (K_MSEC 500), ret (answer_at e w 0));
                (send client error_response (strlen error_response),
                 ret (answer_at e w 1));
                (close client, ret (answer_at e w 2)) ])
      by (unfold exec; rewrite R; reflexivity).
    rewrite (new_events_appended _ _ _ _ T). repeat split.
    + exact T.
    + unfold count_close. cbn [filter is_close fst]. rewrite Z.eqb_refl.
      reflexivity.
    + eexists [_; _], _. reflexivity.
    + intros sock r [I | [I | [I | []]]]; congruence.
Qed.

Lemma spec_response_micro (r : sensor_reading) :
  reading_micro r -> format_response r = spec_response r.
Proof.
  intros H. rewrite (format_response_micro r H).
  destruct H as (Ht & Hp & Hh).
  unfold full_text, full_body, spec_response, spec_body, code_field, spec_field.
  rewrite !fmt_06d_micro by assumption. reflexivity.
Qed.

(** C3, as stated, fails: with a fractional part below zero the response
    is not the specified rendering. For the reading (0, -500000), 0, 0 the
    handler sends [Temperature: 0.-500000 C], which is not an integer part,
    a dot and six digits. With every member at [INT_MIN] the body is cut
    short of its closing tags. *)
Lemma handle_client_response_counterexample :
  reading_ok below_zero_reading
  /\ ret (answer_at env_zero (world_with below_zero_reading) 0) = 0
  /\ new_events (handle_client 7) env_zero (world_with below_zero_reading) =
       [ (k_mutex_lock 500, 0);
         (k_mutex_unlock, 0);
         (send 7
            (http_header ++
             lit "<html><head><title>Weather Station</title></head><body><h1>Weather Station</h1><p>Temperature: 0.-500000 C</p><p>Pressure: 0.000000 kPa</p><p>Humidity: 0.000000 %</p></body></html>")
            224, 0);
         (close 7, 0) ]
  /\ format_response below_zero_reading <> spec_response below_zero_reading
  /\ occurs (lit "</body></html>") (format_response extreme_reading) = false.
Proof.
  split; [|split; [|split; [|split]]]; [| | | |reflexivity].
  - unfold reading_ok, sensor_value_ok, int32, INT_MIN, INT_MAX. simpl. lia.
  - reflexivity.
  - apply new_events_appended. unfold exec.
    rewrite handle_client_locked by reflexivity. reflexivity.
  - intros H. apply (f_equal (@List.length ascii)) in H.
    vm_compute in H. discriminate H.
Qed.

(** C3, amended to fractional parts in 0..999999. When the lock is obtained
    and the three fractional parts of [latest_reading] are in 0..999999,
    [handle_client] sends the status line [HTTP/1.1 200 OK], the header
    [Content-Type: text/html], a blank line and the HTML body in which each
    field is its integer part, a dot and the six digits of its fractional
    part. For (23, 456000), (101, 325000), (45, 120000) the response is the
    text below, whose body contains [Temperature: 23.456000 C],
    [Pressure: 101.325000 kPa] and [Humidity: 45.120000 %]. *)
Theorem handle_client_response (e : env) (w : world) (client : Z) :
  ret (answer_at e w 0) = 0 ->
  reading_micro (latest_reading w) ->
  new_events (handle_client client) e w =
    [ (k_mutex_lock 500, 0);
      (k_mutex_unlock, ret (answer_at e w 1));
      (send client (spec_response (latest_reading w))
         (strlen (spec_response (latest_reading w))),
       ret (answer_at e w 2));
      (close client, ret (answer_at e w 3)) ]
  /\ format_response example_reading =
       lit "HTTP/1.1 200 OK" ++ CRLF ++
       lit "Content-Type: text/html" ++ CRLF ++ CRLF ++
       lit "<html><head><title>Weather Station</title></head><body><h1>Weather Station</h1><p>Temperature: 23.456000 C</p><p>Pressure: 101.325000 kPa</p><p>Humidity: 45.120000 %</p></body></html>"
  /\ occurs (lit "Temperature: 23.456000 C") (format_response example_reading) = true
  /\ occurs (lit "Pressure: 101.325000 kPa") (format_response example_reading) = true
  /\ occurs (lit "Humidity: 45.120000 %") (format_response example_reading) = true.
Proof.
  intros H Hm. split; [|repeat split].
  apply new_events_appended. unfold exec.
  rewrite handle_client_locked by exact H.
  rewrite (spec_response_micro _ Hm). reflexivity.
Qed.

Lemma handle_client_response_witness :
  ret (answer_at env_zero (world_with example_reading) 0) = 0
  /\ reading_micro (latest_reading (world_with example_reading))
  /\ new_events (handle_client 7) env_zero (world_with example_reading) =
       [ (k_mutex_lock 500, 0);
         (k_mutex_unlock, 0);
         (send 7 (spec_response example_reading) 227, 0);
         (close 7, 0) ].
Proof.
  assert (H : ret (answer_at env_zero (world_with example_reading) 0) = 0)
    by reflexivity.
  assert (Hm : reading_micro (latest_reading (world_with example_reading)))
    by (unfold reading_micro, micro; simpl; lia).
  split; [exact H | split; [exact Hm|]].
  exact (proj1 (handle_client_response env_zero (world_with example_reading)
                  7 H Hm)).
Defined.

(** C7. For every reading whose members are [int32_t] values and whose
    fractional parts are in 0..999999, the response [handle_client] formats
    has a body from which the three decimal pairs read back as exactly the
    reading's integer and fractional parts. *)
Theorem format_parse_round_trip (r : sensor_reading) :
  reading_ok r -> reading_micro r ->
  exists body,
    body_of (format_response r) = Some body /\ parse_body body = Some r.
Proof.
  intros Hok Hm. exists (full_body r).
  rewrite (format_response_micro r Hm). split.
  - apply body_of_full_text.
  - apply parse_body_full_body; assumption.
Qed.

Lemma example_reading_ok : reading_ok example_reading.
Proof.
  unfold reading_ok, sensor_value_ok, int32, INT_MIN, INT_MAX. simpl. lia.
Defined.

Lemma example_reading_micro : reading_micro example_reading.
Proof. unfold reading_micro, micro. simpl. lia. Defined.

Lemma format_parse_round_trip_witness :
  reading_ok example_reading /\ reading_micro example_reading /\
  exists body,
    body_of (format_response example_reading) = Some body /\
    parse_body body = Some example_reading.
Proof.
  split; [exact example_reading_ok | split; [exact example_reading_micro|]].
  exact (format_parse_round_trip example_reading
           example_reading_ok example_reading_micro).
Defined.

(** C8, as stated, fails: with every member at [INT_MIN], a reading the
    sampler stores when the driver hands it out, the formatted text is 268
    bytes long and [snprintf] keeps its first 255 bytes only. *)
Lemma response_fits_counterexample :
  reading_ok extreme_reading
  /\ latest_reading (exec (sensor_cycle zero_reading) env_extreme boot)
     = extreme_reading
  /\ strlen (vformat response_format (response_args extreme_reading)) = 268%nat
  /\ strlen (format_response extreme_reading) = 255%nat
  /\ format_response extreme_reading
     <> vformat response_format (response_args extreme_reading).
Proof.
  split; [|split; [|split; [|split]]].
  - unfold reading_ok, sensor_value_ok, int32, extreme_reading. cbn.
    unfold INT_MIN, INT_MAX. lia.
  - reflexivity.
  - reflexivity.
  - reflexivity.
  - intros H. apply (f_equal (@List.length ascii)) in H.
    vm_compute in H. discriminate H.
Qed.

(** C8, amended to fractional parts in 0..999999. For such a reading the
    formatted response is at most 253 bytes, so with its terminator it fits
    the 256-byte buffer, and what [handle_client] sends is the complete
    response. For any reading whatever, when the lock is obtained
    [handle_client] makes one [send], of the first 255 bytes of the
    formatted response at most, with their exact length; and whatever the
    calls return, every [send] it makes is on its connection, of at most 255
    bytes, and carries either that text or the 503 text. *)
Theorem response_fits (e : env) (w : world) (client : Z) :
  ret (answer_at e w 0) = 0 ->
  reading_micro (latest_reading w) ->
  let full := vformat response_format (response_args (latest_reading w)) in
  (strlen full <= 253)%nat
  /\ (strlen full + 1 <= sizeof_response)%nat
  /\ new_events (handle_client client) e w =
       [ (k_mutex_lock 500, 0);
         (k_mutex_unlock, ret (answer_at e w 1));
         (send client full (strlen full), ret (answer_at e w 2));
         (close client, ret (answer_at e w 3)) ]
  /\ (forall (e' : env) (w' : world) (client' : Z),
        ret (answer_at e' w' 0) = 0 ->
        let sent :=
          firstn 255
            (vformat response_format (response_args (latest_reading w'))) in
        (strlen sent <= 255)%nat
        /\ new_events (handle_client client') e' w' =
             [ (k_mutex_lock 500, 0);
               (k_mutex_unlock, ret (answer_at e' w' 1));
               (send client' sent (strlen sent), ret (answer_at e' w' 2));
               (close client', ret (answer_at e' w' 3)) ])
  /\ (forall (e' : env) (w' : world) (client' sock : Z) (buf : bytes)
             (len : nat) (r : Z),
        In (send sock buf len, r) (new_events (handle_client client') e' w') ->
        sock = client' /\ len = strlen buf /\ (len <= 255)%nat
        /\ (buf = error_response \/
            buf = firstn 255
                    (vformat response_format
                       (response_args (latest_reading w'))))).
Proof.
  intros H Hm full.
  assert (L : (strlen full <= 253)%nat).
  { unfold full, strlen. rewrite vformat_response.
    apply full_text_micro_length. exact Hm. }
  assert (U : forall r, format_response r =
                        firstn 255 (vformat response_format (response_args r)))
    by reflexivity.
  assert (B : forall r, (strlen (format_response r) <= 255)%nat).
  { intros r. unfold format_response, snprintf, strlen, sizeof_response.
    rewrite length_firstn. lia. }
  assert (A : forall e' w' client',
            ret (answer_at e' w' 0) = 0 ->
            new_events (handle_client client') e' w' =
              [ (k_mutex_lock 500, 0);
                (k_mutex_unlock, ret (answer_at e' w' 1));
                (send client' (format_response (latest_reading w'))
                   (strlen (format_response (latest_reading w'))),
                 ret (answer_at e' w' 2));
                (close client', ret (answer_at e' w' 3)) ]).
  { intros e' w' client' H'. apply new_events_appended. unfold exec.
    rewrite handle_client_locked by exact H'. reflexivity. }
  split; [exact L | split; [unfold sizeof_response; lia | split; [|split]]].
  - rewrite (A e w client H).
    rewrite (format_response_micro _ Hm), <- vformat_response. reflexivity.
  - intros e' w' client' H' sent. split.
    + unfold sent, strlen. rewrite length_firstn. lia.
    + rewrite (A e' w' client' H'), U. reflexivity.
  - intros e' w' client' sock buf len r Hi.
    destruct (Z.eq_dec (ret (answer_at e' w' 0)) 0) as [H' | H'].
    + rewrite (A e' w' client' H') in Hi.
      destruct Hi as [Hi | [Hi | [Hi | [Hi | []]]]]; try discriminate Hi.
      injection Hi as <- <- <- _.
      split; [reflexivity | split; [reflexivity | split]].
      * exact (B (latest_reading w')).
      * right. apply U.
    + assert (T : trace (exec (handle_client client') e' w') = trace w' ++
                [ (k_mutex_lock (K_MSEC 500), ret (answer_at e' w' 0));
                  (send client' error_response (strlen error_response),
                   ret (answer_at e' w' 1));
                  (close client', ret (answer_at e' w' 2)) ])
        by (unfold exec; rewrite handle_client_not_locked by exact H';
            reflexivity).
      rewrite (new_events_appended _ _ _ _ T) in Hi.
      destruct Hi as [Hi | [Hi | [Hi | []]]]; try discriminate Hi.
      injection Hi as <- <- <- _.
      split; [reflexivity | split; [reflexivity | split]].
      * change (strlen error_response) with 36%nat. lia.
      * left. reflexivity.
Qed.

Lemma response_fits_witness :
  ret (answer_at env_zero (world_with example_reading) 0) = 0
  /\ reading_micro (latest_reading (world_with example_reading))
  /\ (strlen (vformat response_format (response_args example_reading)) <= 253)%nat
  /\ new_events (handle_client 7) env_zero (world_with extreme_reading) =
       [ (k_mutex_lock 500, 0);
         (k_mutex_unlock, 0);
         (send 7
            (firstn 255
               (vformat response_format (response_args extreme_reading)))
            255, 0);
         (close 7, 0) ].
Proof.
  assert (H : ret (answer_at env_zero (world_with example_reading) 0) = 0)
    by reflexivity.
  assert (Hm : reading_micro (latest_reading (world_with example_reading)))
    by (unfold reading_micro, micro; simpl; lia).
  pose proof (response_fits env_zero (world_with example_reading) 7 H Hm) as T.
  cbv zeta in T. destruct T as (L & _ & _ & A & _).
  split; [exact H | split; [exact Hm | split; [exact L|]]].
  exact (proj2 (A env_zero (world_with extreme_reading) 7 eq_refl)).
Defined.

(** ** sensor_thread *)

(** The turn of the sampler's loop in which the lock is obtained. *)
Lemma sensor_cycle_locked (e : env) (w : world) (data : sensor_reading) :
  ret (answer_at e w 4) = 0 ->
  sensor_cycle data e w =
  (fetched data e w,
   {| latest_reading := fetched data e w;
      trace := trace w ++ fetch_events e w ++
        [ (k_mutex_lock (K_MSEC 500), 0);
          (k_mutex_unlock, ret (answer_at e w 5));
          (k_sleep (K_SECONDS 5), ret (answer_at e w 6)) ];
      clock := 7 + clock w |}).
Proof.
  intros H. step_m. unfold answer_at in H. cbn [Nat.add] in H.
  rewrite H. cbn [Z.eqb latest_reading trace clock].
  rewrite <- !app_assoc. reflexivity.
Qed.

(** The turn of the sampler's loop in which the lock is not obtained. *)
Lemma sensor_cycle_not_locked (e : env) (w : world) (data : sensor_reading) :
  ret (answer_at e w 4) <> 0 ->
  sensor_cycle data e w =
  (fetched data e w,
   {| latest_reading := latest_reading w;
      trace := trace w ++ fetch_events e w ++
        [ (k_mutex_lock (K_MSEC 500), ret (answer_at e w 4));
          (k_sleep (K_SECONDS 5), ret (answer_at e w 5)) ];
      clock := 6 + clock w |}).
Proof.
  intros H. step_m. unfold answer_at in H. cbn [Nat.add] in H.
  apply Z.eqb_neq in H. rewrite H. cbn [latest_reading trace clock].
  rewrite <- !app_assoc. reflexivity.
Qed.

(** C4. In a turn of the sampler's loop in which the 500 ms wait for
    [data_mutex] fails, [latest_reading] keeps the value it had, the lock is
    attempted once only, nothing is unlocked, and the next call after the
    failed attempt is the 5 s sleep that ends the turn. *)
Theorem sensor_cycle_lock_timeout (e : env) (w : world) (data : sensor_reading) :
  ret (answer_at e w 4) <> 0 ->
  latest_reading (exec (sensor_cycle data) e w) = latest_reading w
  /\ new_events (sensor_cycle data) e w =
       [ (sensor_sample_fetch, ret (answer_at e w 0));
         (sensor_channel_get SENSOR_CHAN_AMBIENT_TEMP, ret (answer_at e w 1));
         (sensor_channel_get SENSOR_CHAN_PRESS, ret (answer_at e w 2));
         (sensor_channel_get SENSOR_CHAN_HUMIDITY, ret (answer_at e w 3));
         (k_mutex_lock 500, ret (answer_at e w 4));
         (k_sleep 5000, ret (answer_at e w 5)) ]
  /\ trace (exec (sensor_cycle data) e w)
     = trace w ++ new_events (sensor_cycle data) e w.
Proof.
  intros H.
  assert (T : trace (exec (sensor_cycle data) e w) = trace w ++
            fetch_events e w ++
            [ (k_mutex_lock (K_MSEC 500), ret (answer_at e w 4));
              (k_sleep (K_SECONDS 5), ret (answer_at e w 5)) ])
    by (unfold exec; rewrite sensor_cycle_not_locked by exact H; reflexivity).
  rewrite (new_events_appended _ _ _ _ T). split; [|split].
  - unfold exec. rewrite sensor_cycle_not_locked by exact H. reflexivity.
  - reflexivity.
  - exact T.
Qed.

Lemma sensor_cycle_lock_timeout_witness :
  ret (answer_at env_eagain (world_with example_reading) 4) <> 0
  /\ latest_reading
       (exec (sensor_cycle zero_reading) env_eagain (world_with example_reading))
     = example_reading.
Proof.
  assert (H : ret (answer_at env_eagain (world_with example_reading) 4) <> 0)
    by (simpl; lia).
  split; [exact H|].
  exact (proj1 (sensor_cycle_lock_timeout env_eagain
                  (world_with example_reading) zero_reading H)).
Defined.

(** ** web_server_thread *)

Lemma accept_once_turn (e : env) (w : world) (sock : Z) :
  exists t,
    turn sock t /\
    trace (exec (accept_once sock) e w) = trace w ++ t /\
    latest_reading (exec (accept_once sock) e w) = latest_reading w.
Proof.
  unfold exec, accept_once, mbind, sys.
  set (c := ret (e (clock w))).
  set (w1 := {| latest_reading := latest_reading w;
                trace := trace w ++ [(accept sock, c)];
                clock := S (clock w) |}).
  destruct (c >=? 0) eqn:Hc.
  - assert (0 <= c) by lia.
    destruct (Z.eq_dec (ret (answer_at e w1 0)) 0) as [H0 | H0].
    + rewrite (handle_client_locked e w1 c H0). cbn [snd trace latest_reading].
      eexists ((accept sock, c) :: _). split; [|split].
      * apply turn_served; [assumption | apply handled_200].
      * subst w1. cbn [trace latest_reading]. rewrite <- app_assoc. reflexivity.
      * reflexivity.
    + rewrite (handle_client_not_locked e w1 c H0). cbn [snd trace latest_reading].
      eexists ((accept sock, c) :: _). split; [|split].
      * apply turn_served; [assumption | apply handled_503; exact H0].
      * subst w1. cbn [trace]. rewrite <- app_assoc. reflexivity.
      * reflexivity.
  - exists [(accept sock, c)]. split; [|split].
    + apply turn_refused. lia.
    + reflexivity.
    + reflexivity.
Qed.

Lemma exec_accept_loop_S (n : nat) (e : env) (w : world) (sock : Z) :
  exec (accept_loop (S n) sock) e w
  = exec (accept_loop n sock) e (exec (accept_once sock) e w).
Proof.
  unfold exec. cbn [accept_loop]. unfold mbind at 1.
  destruct (accept_once sock e w). reflexivity.
Qed.

Lemma exec_accept_loop_snoc (n : nat) (e : env) (w : world) (sock : Z) :
  exec (accept_loop (S n) sock) e w
  = exec (accept_once sock) e (exec (accept_loop n sock) e w).
Proof.
  revert w. induction n as [|n IH]; intros w.
  - rewrite exec_accept_loop_S. reflexivity.
  - rewrite exec_accept_loop_S, IH, <- exec_accept_loop_S. reflexivity.
Qed.

Lemma accept_loop_serial (n : nat) (e : env) (w : world) (sock : Z) :
  exists evs,
    serial sock n evs /\
    trace (exec (accept_loop n sock) e w) = trace w ++ evs /\
    latest_reading (exec (accept_loop n sock) e w) = latest_reading w.
Proof.
  revert w. induction n as [|n IH]; intros w.
  - exists []. split; [constructor | split; [|reflexivity]].
    cbn. rewrite app_nil_r. reflexivity.
  - rewrite exec_accept_loop_S.
    destruct (accept_once_turn e w sock) as (t & Ht & Tt & Lt).
    destruct (IH (exec (accept_once sock) e w)) as (evs & Hs & Ts & Ls).
    exists (t ++ evs). split; [|split].
    + constructor; assumption.
    + rewrite Ts, Tt, app_assoc. reflexivity.
    + rewrite Ls, Lt. reflexivity.
Qed.

Lemma web_server_thread_setup (n : nat) (e : env) (w : world) :
  exec (web_server_thread n) e w
  = exec (accept_loop n (ret (answer_at e w 0))) e (after_setup e w).
Proof.
  unfold exec, after_setup, setup_events, answer_at. step_m.
  rewrite <- !app_assoc. reflexivity.
Qed.

Lemma web_server_thread_trace (n : nat) (e : env) (w : world) :
  exists turns,
    serial (ret (answer_at e w 0)) n turns /\
    trace (exec (web_server_thread n) e w)
    = trace w ++ setup_events e w ++ turns.
Proof.
  rewrite web_server_thread_setup.
  destruct (accept_loop_serial n e (after_setup e w) (ret (answer_at e w 0)))
    as (turns & Hs & Ht & _).
  exists turns. split; [exact Hs|].
  rewrite Ht. cbn [after_setup trace]. rewrite <- app_assoc. reflexivity.
Qed.

(** C9. For every number [n] of turns, the calls of [web_server_thread]
    after its set-up are [n] turns one after the other, each turn being
    either an [accept] that returned a negative value and nothing else, or
    an [accept] that returned a connection followed by the complete run of
    [handle_client] on that connection, down to its [close]. The loop never
    ends: the run with one more turn is the same run followed by one more
    turn, which starts with an [accept]. *)
Theorem web_server_thread_serial (n : nat) (e : env) (w : world) :
  (exists turns,
     serial (ret (answer_at e w 0)) n turns /\
     new_events (web_server_thread n) e w = setup_events e w ++ turns)
  /\ (exists t,
        turn (ret (answer_at e w 0)) t /\
        trace (exec (web_server_thread (S n)) e w)
        = trace (exec (web_server_thread n) e w) ++ t).
Proof.
  split.
  - destruct (web_server_thread_trace n e w) as (turns & Hs & Ht).
    exists turns. split; [exact Hs|].
    apply new_events_appended. exact Ht.
  - rewrite !web_server_thread_setup, exec_accept_loop_snoc.
    destruct (accept_once_turn e
                (exec (accept_loop n (ret (answer_at e w 0))) e (after_setup e w))
                (ret (answer_at e w 0))) as (t & Ht & Tt & _).
    exists t. split; assumption.
Qed.

Lemma handled_no_log_err (c : Z) (h : list event) :
  handled c h -> forallb (fun ev => negb (is_log_err ev)) h = true.
Proof. intros []; reflexivity. Qed.

Lemma serial_no_log_err (sock : Z) (n : nat) (evs : list event) :
  serial sock n evs -> forallb (fun ev => negb (is_log_err ev)) evs = true.
Proof.
  induction 1 as [|n t rest Ht _ IH]; [reflexivity|].
  rewrite forallb_app, IH, andb_true_r.
  destruct Ht as [c Hc | c h Hc Hh]; [reflexivity|].
  cbn [forallb is_log_err fst negb andb]. apply (handled_no_log_err c h Hh).
Qed.

Lemma answer_at_shift (e : env) (w w' : world) (k : nat) :
  clock w' = S (clock w) -> answer_at e w' k = answer_at e w (S k).
Proof. intros H. unfold answer_at. rewrite H, Nat.add_succ_r. reflexivity. Qed.

Lemma accept_loop_all_refused (n : nat) (e : env) (w : world) (sock : Z) :
  (forall k, (k < n)%nat -> ret (answer_at e w k) < 0) ->
  exec (accept_loop n sock) e w =
  {| latest_reading := latest_reading w;
     trace := trace w ++
       map (fun k => (accept sock, ret (answer_at e w k))) (seq 0 n);
     clock := n + clock w |}.
Proof.
  revert w. induction n as [|n IH]; intros w H.
  - cbn. rewrite app_nil_r. destruct w; reflexivity.
  - rewrite exec_accept_loop_S.
    assert (H0 : ret (answer_at e w 0) < 0) by (apply H; lia).
    assert (E : exec (accept_once sock) e w =
                {| latest_reading := latest_reading w;
                   trace := trace w ++ [(accept sock, ret (answer_at e w 0))];
                   clock := S (clock w) |}).
    { unfold exec, accept_once, mbind, sys. unfold answer_at in *.
      cbn [Nat.add] in *.
      destruct (ret (e (clock w)) >=? 0) eqn:Hc; [lia | reflexivity]. }
    rewrite E. rewrite IH.
    + cbn [latest_reading trace clock]. f_equal.
      * rewrite <- app_assoc. f_equal. cbn [seq map app]. f_equal.
        rewrite <- seq_shift, map_map. apply map_ext. intros k.
        rewrite (answer_at_shift e w) by reflexivity. reflexivity.
      * lia.
    + intros k Hk. rewrite (answer_at_shift e w) by reflexivity.
      apply H. lia.
Qed.

(** C10. [web_server_thread] makes the same four calls, [socket], [bind],
    [listen] and the log call, whatever each of them returns, and then
    enters the accept loop with whatever [socket] returned as the listening
    socket: for every environment the fifth call is [accept], and no error is
    logged. If from then on every [accept] fails, as on a socket that was
    never bound, the thread keeps calling [accept] and does nothing else. *)
Theorem web_server_thread_ignores_setup_results (n : nat) (e : env) (w : world) :
  (forall k, (k < n)%nat -> ret (answer_at e w (4 + k)) < 0) ->
  new_events (web_server_thread n) e w =
    setup_events e w ++
    map (fun k => (accept (ret (answer_at e w 0)), ret (answer_at e w (4 + k))))
        (seq 0 n)
  /\ (forall (e' : env) (w' : world) (m : nat),
        exists rest,
          new_events (web_server_thread (S m)) e' w' =
            [ (socket, ret (answer_at e' w' 0));
              (bind (ret (answer_at e' w' 0)) 80, ret (answer_at e' w' 1));
              (listen (ret (answer_at e' w' 0)) 5, ret (answer_at e' w' 2));
              (LOG_INF "Web server listening on port %d" 80,
               ret (answer_at e' w' 3));
              (accept (ret (answer_at e' w' 0)), ret (answer_at e' w' 4)) ]
            ++ rest)
  /\ (forall (e' : env) (w' : world) (m : nat),
        forallb (fun ev => negb (is_log_err ev))
          (new_events (web_server_thread m) e' w') = true).
Proof.
  intros H. split; [|split].
  - apply new_events_appended. rewrite web_server_thread_setup.
    rewrite accept_loop_all_refused.
    + cbn [trace after_setup]. rewrite <- app_assoc. f_equal. f_equal.
      apply map_ext. intros k. unfold answer_at, after_setup. cbn [clock].
      do 3 f_equal. lia.
    + intros k Hk. specialize (H k Hk). unfold answer_at, after_setup in *.
      cbn [clock]. replace (k + (4 + clock w))%nat with (4 + k + clock w)%nat
        by lia. exact H.
  - intros e' w' m.
    destruct (web_server_thread_trace (S m) e' w') as (turns & Hs & Ht).
    rewrite (new_events_appended _ _ _ _ Ht).
    inversion Hs as [|m' t rest Hturn Hrest]; subst.
    assert (A : ret (answer_at e' (after_setup e' w') 0) = ret (answer_at e' w' 4))
      by reflexivity.
    pose proof (web_server_thread_setup (S m) e' w') as E.
    rewrite exec_accept_loop_S in E.
    destruct (accept_loop_serial m e'
                (exec (accept_once (ret (answer_at e' w' 0))) e' (after_setup e' w'))
                (ret (answer_at e' w' 0))) as (evs & _ & Te & _).
    assert (T1 : exists more,
               trace (exec (accept_once (ret (answer_at e' w' 0))) e'
                        (after_setup e' w'))
               = trace (after_setup e' w') ++
                 (accept (ret (answer_at e' w' 0)), ret (answer_at e' w' 4))
                 :: more).
    { unfold exec, accept_once, mbind, sys.
      change (ret (e' (clock (after_setup e' w')))) with (ret (answer_at e' w' 4)).
      destruct (ret (answer_at e' w' 4) >=? 0).
      - match goal with
        | |- context [handle_client ?c e' ?w1] =>
            destruct (Z.eq_dec (ret (answer_at e' w1 0)) 0) as [H0 | H0];
            [ rewrite (handle_client_locked e' w1 c H0)
            | rewrite (handle_client_not_locked e' w1 c H0) ]
        end; cbn [snd trace]; rewrite <- app_assoc; eexists; reflexivity.
      - exists []. reflexivity. }
    destruct T1 as (more & T1).
    rewrite E, Te, T1 in Ht. cbn [after_setup trace] in Ht.
    rewrite <- !app_assoc in Ht. apply app_inv_head in Ht.
    apply app_inv_head in Ht.
    exists (more ++ evs). unfold setup_events in Ht.
    cbn [app]. cbn [app] in Ht. rewrite <- Ht. reflexivity.
  - intros e' w' m.
    destruct (web_server_thread_trace m e' w') as (turns & Hs & Ht).
    rewrite (new_events_appended _ _ _ _ Ht), forallb_app.
    rewrite (serial_no_log_err _ _ _ Hs). reflexivity.
Qed.

Lemma web_server_thread_ignores_setup_results_witness :
  (forall k, (k < 3)%nat -> ret (answer_at env_eagain boot (4 + k)) < 0)
  /\ new_events (web_server_thread 3) env_eagain boot =
       [ (socket, -11); (bind (-11) 80, -11); (listen (-11) 5, -11);
         (LOG_INF "Web server listening on port %d" 80, -11);
         (accept (-11), -11); (accept (-11), -11); (accept (-11), -11) ].
Proof.
  assert (H : forall k, (k < 3)%nat ->
                ret (answer_at env_eagain boot (4 + k)) < 0)
    by (intros k _; simpl; lia).
  split; [exact H|].
  exact (proj1 (web_server_thread_ignores_setup_results 3 env_eagain boot H)).
Defined.

(* ===================================================================== *)
(** * Proofs, part 3: the two threads together *)
(* ===================================================================== *)

Lemma slot_eq_dec (a b : slot) : {a = b} + {a <> b}.
Proof. decide equality. Defined.

Lemma get_set_same (s : slot) (x : Z) (r : sensor_reading) : get s (set s x r) = x.
Proof. destruct s; reflexivity. Qed.

Lemma get_set_other (s s' : slot) (x : Z) (r : sensor_reading) :
  s <> s' -> get s' (set s x r) = get s' r.
Proof. destruct s, s'; intros H; try reflexivity; contradiction. Qed.

Lemma reading_ext (a b : sensor_reading) :
  (forall s, get s a = get s b) -> a = b.
Proof.
  intros H.
  destruct a as [[t1 t2] [p1 p2] [h1 h2]], b as [[t1' t2'] [p1' p2'] [h1' h2']].
  pose proof (H temp_val1). pose proof (H temp_val2).
  pose proof (H press_val1). pose proof (H press_val2).
  pose proof (H humidity_val1). pose proof (H humidity_val2).
  simpl in *. congruence.
Qed.

Lemma all_slots_complete (s : slot) : In s all_slots.
Proof. destruct s; simpl; tauto. Qed.

(** Copying member [s] makes one more member agree. *)
Lemma copy_progress (src dst : sensor_reading) (before after : list slot) (s : slot) :
  (forall s', ~ In s' (before ++ s :: after) -> get s' dst = get s' src) ->
  forall s', ~ In s' (before ++ after) ->
  get s' (set s (get s src) dst) = get s' src.
Proof.
  intros H s' Hn. destruct (slot_eq_dec s s') as [<- | Hne].
  - apply get_set_same.
  - rewrite get_set_other by exact Hne. apply H.
    intros Hi. apply Hn. apply in_app_or in Hi. apply in_or_app.
    destruct Hi as [Hi | [Hi | Hi]]; [left; exact Hi | contradiction | right; exact Hi].
Qed.

Lemma whole_response_mono (pub : list sensor_reading) (d : sensor_reading) (buf : bytes) :
  whole_response pub buf -> whole_response (d :: pub) buf.
Proof.
  intros [H | (x & Hx & H)]; [left; exact H | right].
  exists x. split; [right; exact Hx | exact H].
Qed.

Lemma sends_whole_mono (pub : list sensor_reading) (d : sensor_reading) (evs : list event) :
  sends_whole pub evs -> sends_whole (d :: pub) evs.
Proof. intros H c buf len r Hi. apply whole_response_mono. eapply H. exact Hi. Qed.

Lemma sends_whole_app (pub : list sensor_reading) (evs more : list event) :
  sends_whole pub evs -> sends_whole pub more -> sends_whole pub (evs ++ more).
Proof.
  intros H1 H2 c buf len r Hi. apply in_app_or in Hi.
  destruct Hi as [Hi | Hi]; [eapply H1 | eapply H2]; exact Hi.
Qed.

Ltac no_send :=
  let Hi := fresh in
  intros ? ? ? ? Hi; cbn [In] in Hi;
  repeat (destruct Hi as [Hi | Hi]; [discriminate Hi |]); contradiction.

Lemma inv_initial (s0 w0 : sensor_reading) (k0 : Z) : inv (initial s0 w0 k0).
Proof.
  constructor; cbn; try discriminate; try reflexivity. no_send.
Qed.

Ltac unfold_state :=
  cbn [sensor_moves web_moves with_mutex with_latest with_s_data with_w_data
       with_server_sock publish g_data_mutex spc wpc g_latest_reading s_data
       w_data g_trace published w_server_sock hd holder] in *.

Ltac use_pc :=
  repeat match goal with
  | H : spc _ = _ |- _ => rewrite H in *; clear H
  | H : wpc _ = _ |- _ => rewrite H in *; clear H
  | H : g_data_mutex _ = _ |- _ => rewrite H in *; clear H
  end;
  cbn [in_store in_copy andb] in *.

Ltac forget_bool t :=
  let b := fresh "b" in
  let E := fresh "E" in
  remember t as b eqn:E in *; clear E; destruct b.

Ltac split_pcs :=
  repeat match goal with
  | H : context [in_copy (wpc ?st)] |- _ => forget_bool (in_copy (wpc st))
  | H : context [in_store (spc ?st)] |- _ => forget_bool (in_store (spc st))
  | |- context [in_copy (wpc ?st)] => forget_bool (in_copy (wpc st))
  | |- context [in_store (spc ?st)] => forget_bool (in_store (spc st))
  end;
  cbn [andb] in *; try congruence; try discriminate; auto.

Lemma hd_in_nonempty (l : list sensor_reading) : l <> [] -> In (hd zero_reading l) l.
Proof. destruct l; [contradiction | left; reflexivity]. Qed.

Lemma inv_step (rdy : Z) (st st' : state) : inv st -> step rdy st st' -> inv st'.
Proof.
  intros [Imu Iex Ist Isd Icg Icd Isg Isn Ipb] Hs.
  destruct Hs; constructor; unfold holder in *; unfold_state; use_pc.
  all: try assumption.
  all: try discriminate.
  all: try (apply sends_whole_app; [assumption | no_send]).
  all: try solve [intros; discriminate].
  all: try solve [split_pcs].
  (* entering a critical section: nothing is copied yet *)
  all: try solve [intros ? E ? Hn; inversion E; subst;
                  exfalso; apply Hn, all_slots_complete].
  all: try solve [intros ? ? E ? Hn; inversion E; subst;
                  exfalso; apply Hn, all_slots_complete].
  (* one member copied *)
  all: try solve [intros ? E; inversion E; subst;
                  apply copy_progress; apply (Ist _ eq_refl)].
  all: try solve [intros ? ? E; inversion E; subst;
                  apply copy_progress; apply (Icg _ _ eq_refl)].
  (* the other thread is not in its critical section *)
  all: try solve [intros ? ? E; rewrite E in *; discriminate].
  (* the sampler unlocks: its reading is published *)
  all: try solve [intros _; apply reading_ext; intros ?;
                  apply (Ist [] eq_refl); exact (fun H => H)].
  all: try solve [intros; right; eauto].
  all: try solve [intros; apply whole_response_mono; eauto].
  all: try solve [apply sends_whole_app;
                  [apply sends_whole_mono; assumption | no_send]].
  (* accept *)
  all: try solve [destruct (c >=? 0); cbn [in_copy andb] in *;
                  try solve [intros; discriminate]; split_pcs].
  (* the responses *)
  all: try solve [intros ? ? E; inversion E; left; reflexivity].
  all: try solve [intros ? ? E; inversion E; right; eauto].
  all: try solve [apply sends_whole_app; [assumption|];
                  intros ? ? ? ? [E | []]; inversion E; subst; eauto].
  (* the handler unlocks: its copy is the newest published reading *)
  all: try solve [intros ? _;
                  replace (w_data st) with (g_latest_reading st)
                    by (symmetry; apply reading_ext; intros ?;
                        apply (Icg _ _ eq_refl); exact (fun H => H));
                  rewrite Isd by split_pcs; apply hd_in_nonempty; assumption].
Qed.

Lemma inv_reachable (rdy : Z) (st : state) : reachable rdy st -> inv st.
Proof.
  induction 1 as [s0 w0 k0 | st st' _ IH Hs].
  - apply inv_initial.
  - exact (inv_step rdy st st' IH Hs).
Qed.

(** ** Schedules *)

Lemma slot_eqb_eq (a b : slot) : slot_eqb a b = true -> a = b.
Proof. destruct a, b; intros H; try reflexivity; discriminate H. Qed.

Lemma split_at_sound (s : slot) (l before after : list slot) :
  split_at s l = Some (before, after) -> l = before ++ s :: after.
Proof.
  revert before; induction l as [|x l IH]; intros before H; cbn in H.
  - discriminate.
  - destruct (slot_eqb s x) eqn:E.
    + apply slot_eqb_eq in E. injection H as <- <-. subst x. reflexivity.
    + destruct (split_at s l) as [[b a]|] eqn:Es; [|discriminate].
      injection H as <- <-. cbn. f_equal. apply IH. reflexivity.
Qed.

Lemma fire_step (rdy : Z) (a : action) (st st' : state) :
  fire rdy a st = Some st' -> step rdy st st'.
Proof.
  destruct a; cbn [fire]; intros H.
  - destruct (spc st) eqn:E; try discriminate. injection H as <-.
    destruct (rdy =? 0) eqn:R.
    + apply sensor_not_ready; [exact E | apply Z.eqb_eq; exact R].
    + apply sensor_ready; [exact E | apply Z.eqb_neq; exact R].
  - destruct (spc st) eqn:E; try discriminate. injection H as <-.
    apply sensor_fetch. exact E.
  - destruct (spc st) eqn:E; try discriminate.
    destruct (g_data_mutex st) as [[]|] eqn:Em; try discriminate;
      destruct (rc =? 0) eqn:R; try discriminate; injection H as <-.
    + apply sensor_lock_timeout; [exact E | exact Em | apply Z.eqb_neq; exact R].
    + apply sensor_lock; assumption.
  - destruct (spc st) eqn:E; try discriminate.
    destruct (split_at s todo) as [[before after]|] eqn:Es; try discriminate.
    injection H as <-. apply split_at_sound in Es. subst todo.
    apply sensor_store. exact E.
  - destruct (spc st) as [| | | |[|]|] eqn:E; try discriminate.
    injection H as <-. apply sensor_unlock. exact E.
  - destruct (spc st) eqn:E; try discriminate. injection H as <-.
    apply sensor_sleep. exact E.
  - destruct (wpc st) eqn:E; try discriminate. injection H as <-.
    apply web_start. exact E.
  - destruct (wpc st) eqn:E; try discriminate. injection H as <-.
    apply web_accept. exact E.
  - destruct (wpc st) eqn:E; try discriminate.
    destruct (g_data_mutex st) as [[]|] eqn:Em; try discriminate;
      destruct (rc =? 0) eqn:R; try discriminate; injection H as <-.
    + apply web_lock_timeout; [exact E | exact Em | apply Z.eqb_neq; exact R].
    + apply web_lock; assumption.
  - destruct (wpc st) eqn:E; try discriminate.
    destruct (split_at s todo) as [[before after]|] eqn:Es; try discriminate.
    injection H as <-. apply split_at_sound in Es. subst todo.
    apply web_copy. exact E.
  - destruct (wpc st) as [| | |? [|]| | |] eqn:E; try discriminate.
    injection H as <-. apply web_unlock. exact E.
  - destruct (wpc st) eqn:E; try discriminate. injection H as <-.
    apply web_format. exact E.
  - destruct (wpc st) eqn:E; try discriminate. injection H as <-.
    apply web_send. exact E.
  - destruct (wpc st) eqn:E; try discriminate. injection H as <-.
    apply web_close. exact E.
Qed.

Lemma run_reachable (rdy : Z) (sched : list action) (st st' : state) :
  reachable rdy st -> run rdy sched st = Some st' -> reachable rdy st'.
Proof.
  revert st. induction sched as [|a sched IH]; intros st Hr H; cbn in H.
  - injection H as <-. exact Hr.
  - destruct (fire rdy a st) as [st1|] eqn:F; [|discriminate].
    apply (IH st1); [|exact H].
    apply reach_step with st; [exact Hr | exact (fire_step rdy a st st1 F)].
Defined.

Lemma state_after_reachable (rdy : Z) (sched : list action) :
  reachable rdy (state_after rdy sched).
Proof.
  unfold state_after.
  destruct (run rdy sched (initial zero_reading zero_reading 0)) as [st|] eqn:R.
  - exact (run_reachable rdy sched _ st (reach_initial rdy _ _ _) R).
  - apply reach_initial.
Defined.

(** ** Reads are whole *)

(** C6. Under every interleaving of the two threads, with the structure
    assignments taking one step per member, the handler never copies a mix
    of two readings. When its copy is complete, still under the lock, its
    [data] equals [latest_reading], which is the newest completely stored
    reading; after the unlock its [data] is one of the completely stored
    readings, and every response it sends is the 503 text or the formatting
    of one completely stored reading. *)
Theorem no_torn_read (rdy : Z) (st : state) :
  reachable rdy st ->
  (forall c, wpc st = H_copy c [] ->
     w_data st = g_latest_reading st /\
     g_latest_reading st = hd zero_reading (published st))
  /\ (forall c, wpc st = H_format c -> In (w_data st) (published st))
  /\ (forall c response, wpc st = H_send c response ->
        whole_response (published st) response)
  /\ sends_whole (published st) (g_trace st).
Proof.
  intros Hr. destruct (inv_reachable rdy st Hr)
    as [Imu Iex Ist Isd Icg Icd Isg Isn Ipb].
  split; [|split; [|split]]; try assumption.
  intros c E. split.
  - apply reading_ext. intros s. apply (Icg c [] E). exact (fun H => H).
  - apply Isd. rewrite E in Iex. cbn [in_copy] in Iex.
    destruct (in_store (spc st)); [discriminate Iex | reflexivity].
Qed.

Lemma no_torn_read_witness :
  reachable 1 (state_after 1 publish_then_read)
  /\ wpc (state_after 1 publish_then_read) = H_format 4
  /\ w_data (state_after 1 publish_then_read) = example_reading
  /\ In (w_data (state_after 1 publish_then_read))
        (published (state_after 1 publish_then_read)).
Proof.
  pose proof (state_after_reachable 1 publish_then_read) as Hr.
  split; [exact Hr | split; [reflexivity | split; [reflexivity|]]].
  exact (proj1 (proj2 (no_torn_read 1 _ Hr)) 4 eq_refl).
Defined.

(** ** The device is not ready *)

Lemma idle_initial (s0 w0 : sensor_reading) (k0 : Z) : idle_inv (initial s0 w0 k0).
Proof.
  constructor; cbn; try discriminate; try reflexivity; try tauto.
Qed.

Ltac no_send_idle :=
  let Hi := fresh in
  intros ? ? ? ? Hi; apply in_app_or in Hi;
  destruct Hi as [Hi | Hi]; [eauto |];
  cbn [In] in Hi;
  repeat (destruct Hi as [Hi | Hi]; [discriminate Hi |]); contradiction.

Lemma idle_step (st st' : state) : idle_inv st -> step 0 st st' -> idle_inv st'.
Proof.
  intros [Ipc Imu Ila Ipu Icg Icd Isg Isn Ins Ilo] Hs.
  destruct Hs; constructor; unfold_state.
  all: try solve [destruct Ipc; congruence].
  all: use_pc.
  all: try assumption.
  all: try discriminate.
  all: try solve [intros; discriminate].
  all: try solve [no_send_idle].
  all: try solve [rewrite forallb_app, Ins; reflexivity].
  all: try reflexivity.
  all: try solve [right; reflexivity].
  (* the error stays logged *)
  all: try solve [intros E; destruct (Ilo E) as [r0 ?]; exists r0;
                  apply in_or_app; left; assumption].
  all: try solve [intros _; eexists; apply in_or_app; right; cbn; eauto].
  (* accept *)
  all: try solve [destruct (c >=? 0); cbn [in_copy];
                  try reflexivity; intros; discriminate].
  (* the copy, member by member, of the default reading *)
  all: try solve [intros ? ? E ? Hn; inversion E; subst;
                  exfalso; apply Hn, all_slots_complete].
  all: try solve [intros ? ? E; inversion E; subst; rewrite Ila;
                  apply copy_progress; apply (Icg _ _ eq_refl)].
  all: try solve [intros ? _; apply reading_ext; intros ?;
                  apply (Icg _ _ eq_refl); exact (fun H => H)].
  (* the response *)
  all: try solve [intros ? ? E; inversion E; subst;
                  rewrite (Icd _ eq_refl); reflexivity].
  all: try solve [intros ? ? ? ? Hi; apply in_app_or in Hi;
                  destruct Hi as [Hi | [Hi | []]]; [eauto |];
                  inversion Hi; subst;
                  split; [eapply Isg; reflexivity | reflexivity]].
Qed.

Lemma idle_reachable (st : state) : reachable 0 st -> idle_inv st.
Proof.
  induction 1 as [s0 w0 k0 | st st' _ IH Hs].
  - apply idle_initial.
  - exact (idle_step st st' IH Hs).
Qed.

Lemma sensor_thread_not_ready (n : nat) (data0 : sensor_reading) (e : env) (w : world) :
  ret (answer_at e w 0) = 0 ->
  sensor_thread n data0 e w =
  (tt, {| latest_reading := latest_reading w;
          trace := trace w ++
            [ (device_is_ready, 0);
              (LOG_ERR "BME280 device not ready", ret (answer_at e w 1)) ];
          clock := 2 + clock w |}).
Proof.
  intros H. step_m. unfold answer_at in H. cbn [Nat.add] in H.
  rewrite H. cbn [Z.eqb latest_reading trace clock].
  rewrite <- !app_assoc. reflexivity.
Qed.

(** The steps of a handler that obtains the lock, run from a state in which
    it stands at its lock attempt and the mutex is free. *)
Lemma run_handler_steps_200
    (rdy client sock : Z) (pc : sensor_pc) (sd wd : sensor_reading)
    (tr : list event) (pub : list sensor_reading) (r1 r2 r3 : Z)
    (t1 t2 p1 p2 h1 h2 : Z) :
  let latest := {| temp := {| val1 := t1; val2 := t2 |};
                   press := {| val1 := p1; val2 := p2 |};
                   humidity := {| val1 := h1; val2 := h2 |} |} in
  run rdy (handler_steps_200 r1 r2 r3)
    (at_handler client latest None pc sd wd sock tr pub)
  = Some (handler_done None latest pc sd latest sock
            (fold_left (fun t evs => t ++ evs)
               [ [(k_mutex_lock (K_MSEC 500), 0)]; []; []; []; []; []; [];
                 [(k_mutex_unlock, r1)]; [];
                 [(send client (format_response latest)
                     (strlen (format_response latest)), r2)];
                 [(close client, r3)] ] tr)
            pub).
Proof. intros latest. reflexivity. Qed.

(** C5. When [device_is_ready] returns false, [sensor_thread] makes two
    calls, the readiness test and the error log, and returns: whatever the
    number of turns allowed, no turn of its loop runs and [latest_reading]
    is not written. With the two threads running from start-up, in every
    reachable state the sampler is at its start or has returned, no call of
    a sampling turn was made, and [latest_reading] is the all-zero reading
    it started with. The handler keeps serving: whenever it stands at its
    lock attempt the mutex is free, the attempt cannot fail, and its steps
    run to the end, sending the 200 response formatted from the all-zero
    reading and closing the connection; [handle_client] run on the all-zero
    reading with the lock obtained sends that same response. No 503 is ever
    sent or about to be sent. *)
Theorem sensor_not_ready_serves_default
    (n : nat) (data0 : sensor_reading) (e : env) (w : world) (st : state) :
  ret (answer_at e w 0) = 0 ->
  reachable 0 st ->
  new_events (sensor_thread n data0) e w =
    [ (device_is_ready, 0);
      (LOG_ERR "BME280 device not ready", ret (answer_at e w 1)) ]
  /\ latest_reading (exec (sensor_thread n data0) e w) = latest_reading w
  /\ (spc st = S_start \/ spc st = S_returned)
  /\ forallb (fun ev => negb (is_sampling ev)) (g_trace st) = true
  /\ g_latest_reading st = zero_reading
  /\ (forall c buf len r,
        In (send c buf len, r) (g_trace st) ->
        buf = format_response zero_reading /\ len = strlen buf)
  /\ format_response zero_reading =
       http_header ++
       lit "<html><head><title>Weather Station</title></head><body><h1>Weather Station</h1><p>Temperature: 0.000000 C</p><p>Pressure: 0.000000 kPa</p><p>Humidity: 0.000000 %</p></body></html>"
  /\ (forall c response,
        wpc st = H_send c response -> response = format_response zero_reading)
  /\ (forall c, wpc st = H_lock c -> g_data_mutex st = None)
  /\ (forall c st',
        wpc st = H_lock c -> step 0 st st' ->
        wpc st' = H_lock c \/ wpc st' = H_copy c all_slots)
  /\ (forall c r1 r2 r3,
        wpc st = H_lock c ->
        exists st',
          run 0 (handler_steps_200 r1 r2 r3) st = Some st'
          /\ reachable 0 st'
          /\ wpc st' = W_accept
          /\ g_trace st' = g_trace st ++
               [ (k_mutex_lock 500, 0);
                 (k_mutex_unlock, r1);
                 (send c (format_response zero_reading)
                    (strlen (format_response zero_reading)), r2);
                 (close c, r3) ])
  /\ (forall client e' w',
        latest_reading w' = zero_reading ->
        ret (answer_at e' w' 0) = 0 ->
        new_events (handle_client client) e' w' =
          [ (k_mutex_lock 500, 0);
            (k_mutex_unlock, ret (answer_at e' w' 1));
            (send client (format_response zero_reading)
               (strlen (format_response zero_reading)),
             ret (answer_at e' w' 2));
            (close client, ret (answer_at e' w' 3)) ]).
Proof.
  intros H Hr.
  destruct (idle_reachable st Hr) as [Ipc Imu Ila Ipu Icg Icd Isg Isn Ins Ilo].
  assert (Free : forall c, wpc st = H_lock c -> g_data_mutex st = None).
  { intros c E. rewrite Imu, E. reflexivity. }
  split; [|split; [|split; [|split; [|split; [|split; [|split; [|split;
    [|split; [|split; [|split]]]]]]]]]]; try assumption.
  - apply new_events_appended. unfold exec.
    rewrite sensor_thread_not_ready by exact H. reflexivity.
  - unfold exec. rewrite sensor_thread_not_ready by exact H. reflexivity.
  - reflexivity.
  - intros c st' E Hs. pose proof (Free c E) as Hm.
    destruct Hs;
      cbn [wpc sensor_moves web_moves with_mutex with_latest with_s_data
           with_w_data with_server_sock publish];
      try (left; exact E); try congruence.
    right. congruence.
  - intros c r1 r2 r3 E. pose proof (Free c E) as Hm.
    destruct st as [lat mu sp sd wp sock wd tr pub].
    cbn [wpc g_data_mutex g_latest_reading g_trace] in *. subst wp mu lat.
    pose proof (run_handler_steps_200 0 c sock sp sd wd tr pub r1 r2 r3
                  0 0 0 0 0 0) as R.
    cbv zeta in R.
    eexists. split; [exact R | split; [|split]].
    + exact (run_reachable 0 _ _ _ Hr R).
    + reflexivity.
    + cbn [handler_done g_trace fold_left].
      rewrite !app_nil_r, <- !app_assoc. reflexivity.
  - intros client e' w' Hz H0. apply new_events_appended. unfold exec.
    rewrite handle_client_locked by exact H0. rewrite Hz. reflexivity.
Qed.

Lemma sensor_not_ready_serves_default_witness :
  ret (answer_at env_zero boot 0) = 0
  /\ reachable 0 (state_after 0 not_ready_then_accept)
  /\ wpc (state_after 0 not_ready_then_accept) = H_lock 4
  /\ g_latest_reading (state_after 0 not_ready_then_accept) = zero_reading
  /\ exists st',
       run 0 (handler_steps_200 0 223 0) (state_after 0 not_ready_then_accept)
       = Some st'
       /\ reachable 0 st'
       /\ wpc st' = W_accept
       /\ g_trace st' = g_trace (state_after 0 not_ready_then_accept) ++
            [ (k_mutex_lock 500, 0);
              (k_mutex_unlock, 0);
              (send 4 (format_response zero_reading)
                 (strlen (format_response zero_reading)), 223);
              (close 4, 0) ].
Proof.
  assert (H : ret (answer_at env_zero boot 0) = 0) by reflexivity.
  pose proof (state_after_reachable 0 not_ready_then_accept) as Hr.
  assert (E : wpc (state_after 0 not_ready_then_accept) = H_lock 4)
    by reflexivity.
  pose proof (sensor_not_ready_serves_default 3 zero_reading env_zero boot
                _ H Hr) as T.
  destruct T as (_ & _ & _ & _ & L & _ & _ & _ & _ & _ & R & _).
  split; [exact H | split; [exact Hr | split; [exact E | split]]].
  - exact L.
  - exact (R 4 0 223 0 E).
Defined.

(** ** The two embeddings of [handle_client] agree *)

Lemma run_handler_steps_503
    (rdy client sock : Z) (pc : sensor_pc) (latest sd wd : sensor_reading)
    (tr : list event) (pub : list sensor_reading) (rc r2 r3 : Z) :
  (rc =? 0) = false ->
  run rdy (handler_steps_503 rc r2 r3)
    (at_handler client latest (Some sensor_tid) pc sd wd sock tr pub)
  = Some (handler_done (Some sensor_tid) latest pc sd wd sock
            (fold_left (fun t evs => t ++ evs)
               [ [(k_mutex_lock (K_MSEC 500), rc)];
                 [(send client error_response (strlen error_response), r2)];
                 [(close client, r3)] ] tr)
            pub).
Proof.
  intros H. unfold handler_steps_503. cbn [run]. unfold fire at 1.
  cbn [at_handler wpc g_data_mutex]. rewrite H. reflexivity.
Qed.

(** Run without the other thread stepping in between, the steps of the
    handler in the transition system make the calls of [handle_client] and
    leave [latest_reading] as it does. *)
Lemma handler_steps_200_agree
    (rdy client sock : Z) (pc : sensor_pc) (sd wd : sensor_reading)
    (tr : list event) (pub : list sensor_reading) (e : env) (w : world) :
  ret (answer_at e w 0) = 0 ->
  run rdy
    (handler_steps_200 (ret (answer_at e w 1)) (ret (answer_at e w 2))
       (ret (answer_at e w 3)))
    (at_handler client (latest_reading w) None pc sd wd sock tr pub)
  = Some (handler_done None
            (latest_reading (exec (handle_client client) e w))
            pc sd (latest_reading w) sock
            (tr ++ new_events (handle_client client) e w) pub).
Proof.
  intros H.
  assert (T : trace (exec (handle_client client) e w) = trace w ++
            [ (k_mutex_lock (K_MSEC 500), 0);
              (k_mutex_unlock, ret (answer_at e w 1));
              (send client (format_response (latest_reading w))
                 (strlen (format_response (latest_reading w))),
               ret (answer_at e w 2));
              (close client, ret (answer_at e w 3)) ])
    by (unfold exec; rewrite handle_client_locked by exact H; reflexivity).
  rewrite (new_events_appended _ _ _ _ T).
  unfold exec. rewrite handle_client_locked by exact H.
  cbn [snd latest_reading].
  destruct (latest_reading w) as [[t1 t2] [p1 p2] [h1 h2]].
  rewrite run_handler_steps_200. cbn [fold_left].
  rewrite !app_nil_r, <- !app_assoc. reflexivity.
Qed.

Lemma handler_steps_503_agree
    (rdy client sock : Z) (pc : sensor_pc) (sd wd : sensor_reading)
    (tr : list event) (pub : list sensor_reading) (e : env) (w : world) :
  ret (answer_at e w 0) <> 0 ->
  run rdy
    (handler_steps_503 (ret (answer_at e w 0)) (ret (answer_at e w 1))
       (ret (answer_at e w 2)))
    (at_handler client (latest_reading w) (Some sensor_tid) pc sd wd sock
       tr pub)
  = Some (handler_done (Some sensor_tid)
            (latest_reading (exec (handle_client client) e w))
            pc sd wd sock
            (tr ++ new_events (handle_client client) e w) pub).
Proof.
  intros H.
  assert (T : trace (exec (handle_client client) e w) = trace w ++
            [ (k_mutex_lock (K_MSEC 500), ret (answer_at e w 0));
              (send client error_response (strlen error_response),
               ret (answer_at e w 1));
              (close client, ret (answer_at e w 2)) ])
    by (unfold exec; rewrite handle_client_not_locked by exact H; reflexivity).
  rewrite (new_events_appended _ _ _ _ T).
  unfold exec. rewrite handle_client_not_locked by exact H.
  cbn [snd latest_reading].
  rewrite run_handler_steps_503 by (apply Z.eqb_neq; exact H).
  cbn [fold_left]. rewrite <- !app_assoc. reflexivity.
Qed.

(* ===================================================================== *)
(** * Proofs, part 4: further properties of the two threads *)
(* ===================================================================== *)

(** ** The sampler *)

(** X1. In a turn of the sampler's loop in which the lock is obtained,
    [latest_reading] is replaced as a whole by the local [data], in which
    each channel holds what the driver stored for it in this turn, or what
    [data] held before when the driver stored nothing. The calls are the
    fetch, the three channel reads, the lock, the unlock and the 5 s sleep,
    whatever the fetch and the channel reads returned: their results are
    not looked at. *)
Theorem sensor_cycle_publishes (e : env) (w : world) (data : sensor_reading) :
  ret (answer_at e w 4) = 0 ->
  latest_reading (exec (sensor_cycle data) e w) =
    {| temp := store_channel (temp data) (answer_at e w 1);
       press := store_channel (press data) (answer_at e w 2);
       humidity := store_channel (humidity data) (answer_at e w 3) |}
  /\ fst (sensor_cycle data e w) = latest_reading (exec (sensor_cycle data) e w)
  /\ new_events (sensor_cycle data) e w =
       [ (sensor_sample_fetch, ret (answer_at e w 0));
         (sensor_channel_get SENSOR_CHAN_AMBIENT_TEMP, ret (answer_at e w 1));
         (sensor_channel_get SENSOR_CHAN_PRESS, ret (answer_at e w 2));
         (sensor_channel_get SENSOR_CHAN_HUMIDITY, ret (answer_at e w 3));
         (k_mutex_lock 500, 0);
         (k_mutex_unlock, ret (answer_at e w 5));
         (k_sleep 5000, ret (answer_at e w 6)) ].
Proof.
  intros H. split; [|split].
  - unfold exec. rewrite sensor_cycle_locked by exact H. reflexivity.
  - unfold exec. rewrite sensor_cycle_locked by exact H. reflexivity.
  - apply new_events_appended. unfold exec.
    rewrite sensor_cycle_locked by exact H. reflexivity.
Qed.

Lemma sensor_cycle_publishes_witness :
  ret (answer_at env_extreme boot 4) = 0
  /\ latest_reading (exec (sensor_cycle zero_reading) env_extreme boot)
     = extreme_reading.
Proof.
  assert (H : ret (answer_at env_extreme boot 4) = 0) by reflexivity.
  split; [exact H|].
  exact (proj1 (sensor_cycle_publishes env_extreme boot zero_reading H)).
Defined.

Lemma exec_sensor_loop_S (n : nat) (data : sensor_reading) (e : env) (w : world) :
  exec (sensor_loop (S n) data) e w
  = exec (sensor_loop n (fst (sensor_cycle data e w))) e
      (exec (sensor_cycle data) e w).
Proof.
  unfold exec. cbn [sensor_loop]. unfold mbind at 1.
  destruct (sensor_cycle data e w). reflexivity.
Qed.

(** X2. A channel the driver stores nothing for is published with the value
    the local [data] kept from the turn before: when the first turn reads
    [v] for the temperature and the second turn's temperature read stores
    nothing, the second turn publishes [v] again as the temperature. *)
Theorem sensor_loop_republishes_stale
    (e : env) (w : world) (data0 : sensor_reading) (v : sensor_value) :
  out (answer_at e w 1) = Some v ->
  ret (answer_at e w 4) = 0 ->
  out (answer_at e w 8) = None ->
  ret (answer_at e w 11) = 0 ->
  temp (latest_reading (exec (sensor_loop 2 data0) e w)) = v.
Proof.
  intros O1 L1 O2 L2.
  rewrite !exec_sensor_loop_S. unfold exec.
  rewrite (sensor_cycle_locked e w data0 L1). cbn [fst snd].
  set (w1 := {| latest_reading := fetched data0 e w;
                trace := _; clock := 7 + clock w |}).
  assert (A : forall k, answer_at e w1 k = answer_at e w (7 + k)).
  { intros k. unfold answer_at. cbn [w1 clock]. f_equal. lia. }
  rewrite (sensor_cycle_locked e w1 (fetched data0 e w))
    by (rewrite A; exact L2).
  cbn [sensor_loop pure snd latest_reading fetched temp].
  rewrite (A 1%nat). change (7 + 1)%nat with 8%nat.
  unfold store_channel. rewrite O2, O1. reflexivity.
Qed.

Lemma sensor_loop_republishes_stale_witness :
  out (answer_at env_then_silent boot 1) = Some {| val1 := 1; val2 := 500000 |}
  /\ ret (answer_at env_then_silent boot 4) = 0
  /\ out (answer_at env_then_silent boot 8) = None
  /\ ret (answer_at env_then_silent boot 11) = 0
  /\ temp (latest_reading (exec (sensor_loop 2 zero_reading) env_then_silent boot))
     = {| val1 := 1; val2 := 500000 |}.
Proof.
  repeat (split; [reflexivity|]).
  exact (sensor_loop_republishes_stale env_then_silent boot zero_reading
           {| val1 := 1; val2 := 500000 |} eq_refl eq_refl eq_refl eq_refl).
Defined.

Lemma sensor_cycle_turn (e : env) (w : world) (data : sensor_reading) :
  exists t,
    sample_turn t /\
    trace (exec (sensor_cycle data) e w) = trace w ++ t.
Proof.
  destruct (Z.eq_dec (ret (answer_at e w 4)) 0) as [H | H]; unfold exec.
  - rewrite sensor_cycle_locked by exact H. eexists. split.
    + apply sample_published.
    + reflexivity.
  - rewrite sensor_cycle_not_locked by exact H. eexists. split.
    + apply sample_skipped. exact H.
    + reflexivity.
Qed.

Lemma sensor_loop_sampled (n : nat) (data : sensor_reading) (e : env) (w : world) :
  exists evs,
    sampled n evs /\
    trace (exec (sensor_loop n data) e w) = trace w ++ evs.
Proof.
  revert data w. induction n as [|n IH]; intros data w.
  - exists []. split; [constructor|]. cbn. rewrite app_nil_r. reflexivity.
  - rewrite exec_sensor_loop_S.
    destruct (sensor_cycle_turn e w data) as (t & Ht & Tt).
    destruct (IH (fst (sensor_cycle data e w)) (exec (sensor_cycle data) e w))
      as (evs & Hs & Ts).
    exists (t ++ evs). split; [constructor; assumption|].
    rewrite Ts, Tt, app_assoc. reflexivity.
Qed.

Lemma sensor_thread_ready (n : nat) (data0 : sensor_reading) (e : env) (w : world) :
  ret (answer_at e w 0) <> 0 ->
  exec (sensor_thread n data0) e w =
  exec (sensor_loop n data0) e
    {| latest_reading := latest_reading w;
       trace := trace w ++ [(device_is_ready, ret (answer_at e w 0))];
       clock := S (clock w) |}.
Proof.
  intros H. unfold exec, sensor_thread, mbind, sys, answer_at in *.
  cbn [Nat.add] in H. apply Z.eqb_neq in H. rewrite H. reflexivity.
Qed.

Lemma count_app (p : event -> bool) (a b : list event) :
  count p (a ++ b) = (count p a + count p b)%nat.
Proof. unfold count. rewrite filter_app, length_app. reflexivity. Qed.

Lemma sample_turn_counts (t : list event) :
  sample_turn t ->
  count is_sleep t = 1%nat /\ count is_unlock t = count is_lock_ok t
  /\ forallb (fun ev => negb (is_log_err ev)) t = true.
Proof.
  intros [f tt p h r1 r2 | f tt p h rc r2 Hrc].
  - repeat split.
  - unfold count. cbn [filter is_sleep is_unlock is_lock_ok fst snd].
    apply Z.eqb_neq in Hrc. rewrite Hrc. repeat split.
Qed.

Lemma sampled_counts (n : nat) (evs : list event) :
  sampled n evs ->
  count is_sleep evs = n /\ count is_unlock evs = count is_lock_ok evs
  /\ forallb (fun ev => negb (is_log_err ev)) evs = true.
Proof.
  induction 1 as [|n t rest Ht _ (IS & IU & IL)]; [repeat split|].
  destruct (sample_turn_counts t Ht) as (S1 & U1 & L1).
  rewrite !count_app, forallb_app, S1, U1, IS, IU, L1, IL. repeat split.
Qed.

(** X3. When the device is ready, [sensor_thread] tests readiness once and
    then runs turn after turn: for every [n] its calls are the readiness
    test followed by [n] turns, each turn being the fetch, the three channel
    reads, one lock attempt, the unlock if and only if the lock was
    obtained, and the 5 s sleep. There is one sleep per turn whatever the
    lock attempt returned, and no error is ever logged. *)
Theorem sensor_thread_turns (n : nat) (data0 : sensor_reading) (e : env) (w : world) :
  ret (answer_at e w 0) <> 0 ->
  exists turns,
    sampled n turns
    /\ new_events (sensor_thread n data0) e w
       = (device_is_ready, ret (answer_at e w 0)) :: turns
    /\ count is_sleep turns = n
    /\ forallb (fun ev => negb (is_log_err ev)) turns = true.
Proof.
  intros H.
  destruct (sensor_loop_sampled n data0 e
              {| latest_reading := latest_reading w;
                 trace := trace w ++ [(device_is_ready, ret (answer_at e w 0))];
                 clock := S (clock w) |}) as (turns & Hs & Ht).
  exists turns. destruct (sampled_counts n turns Hs) as (S1 & _ & L1).
  split; [exact Hs | split; [|split; assumption]].
  apply new_events_appended. rewrite sensor_thread_ready by exact H.
  rewrite Ht. cbn [trace]. rewrite <- app_assoc. reflexivity.
Qed.

Lemma sensor_thread_turns_witness :
  ret (answer_at env_eagain boot 0) <> 0
  /\ exists turns,
       sampled 2 turns
       /\ new_events (sensor_thread 2 zero_reading) env_eagain boot
          = (device_is_ready, -11) :: turns.
Proof.
  assert (H : ret (answer_at env_eagain boot 0) <> 0) by (simpl; lia).
  split; [exact H|].
  destruct (sensor_thread_turns 2 zero_reading env_eagain boot H)
    as (turns & Hs & Ht & _).
  exists turns. split; [exact Hs | exact Ht].
Defined.

(** X4. [sensor_thread] unlocks [data_mutex] exactly as many times as it
    locked it with success, for every number of turns and whatever the
    calls return: it never unlocks a mutex it failed to lock and never
    leaves one locked at the end of a turn. *)
Theorem sensor_thread_lock_balance
    (n : nat) (data0 : sensor_reading) (e : env) (w : world) :
  count is_unlock (new_events (sensor_thread n data0) e w)
  = count is_lock_ok (new_events (sensor_thread n data0) e w).
Proof.
  destruct (Z.eq_dec (ret (answer_at e w 0)) 0) as [H | H].
  - assert (T : trace (exec (sensor_thread n data0) e w) = trace w ++
              [ (device_is_ready, 0);
                (LOG_ERR "BME280 device not ready", ret (answer_at e w 1)) ])
      by (unfold exec; rewrite sensor_thread_not_ready by exact H; reflexivity).
    rewrite (new_events_appended _ _ _ _ T). reflexivity.
  - destruct (sensor_loop_sampled n data0 e
                {| latest_reading := latest_reading w;
                   trace := trace w ++
                     [(device_is_ready, ret (answer_at e w 0))];
                   clock := S (clock w) |}) as (turns & Hs & Ht).
    assert (T : trace (exec (sensor_thread n data0) e w) = trace w ++
              (device_is_ready, ret (answer_at e w 0)) :: turns).
    { rewrite sensor_thread_ready by exact H. rewrite Ht. cbn [trace].
      rewrite <- app_assoc. reflexivity. }
    rewrite (new_events_appended _ _ _ _ T).
    change ((device_is_ready, ret (answer_at e w 0)) :: turns)
      with ([(device_is_ready, ret (answer_at e w 0))] ++ turns).
    rewrite !count_app.
    destruct (sampled_counts n turns Hs) as (_ & U & _). rewrite U.
    reflexivity.
Qed.

(** ** The web server *)

Lemma closed_socks_app (a b : list event) :
  closed_socks (a ++ b) = closed_socks a ++ closed_socks b.
Proof. apply flat_map_app. Qed.

Lemma accepted_socks_app (a b : list event) :
  accepted_socks (a ++ b) = accepted_socks a ++ accepted_socks b.
Proof. apply flat_map_app. Qed.

Lemma handled_counts (c : Z) (h : list event) :
  handled c h ->
  count is_unlock h = count is_lock_ok h
  /\ closed_socks h = [c] /\ accepted_socks h = [].
Proof.
  intros [data r1 r2 r3 | rc r2 r3 Hrc].
  - repeat split.
  - unfold count. cbn [filter is_unlock is_lock_ok fst snd].
    apply Z.eqb_neq in Hrc. rewrite Hrc. repeat split.
Qed.

Lemma turn_counts (sock : Z) (t : list event) :
  turn sock t ->
  count is_unlock t = count is_lock_ok t
  /\ closed_socks t = accepted_socks t.
Proof.
  intros [c Hc | c h Hc Hh].
  - unfold accepted_socks, closed_socks. cbn [flat_map fst snd app].
    destruct (c >=? 0) eqn:E; [lia | repeat split].
  - destruct (handled_counts c h Hh) as (U & C & A).
    change ((accept sock, c) :: h) with ([(accept sock, c)] ++ h).
    rewrite !count_app, U. split; [reflexivity|].
    rewrite closed_socks_app, accepted_socks_app, C, A.
    unfold accepted_socks, closed_socks. cbn [flat_map fst snd app].
    destruct (c >=? 0) eqn:E; [reflexivity | lia].
Qed.

Lemma serial_counts (sock : Z) (n : nat) (evs : list event) :
  serial sock n evs ->
  count is_unlock evs = count is_lock_ok evs
  /\ closed_socks evs = accepted_socks evs.
Proof.
  induction 1 as [|n t rest Ht _ (IU & IC)]; [repeat split|].
  destruct (turn_counts sock t Ht) as (U & C).
  rewrite !count_app, U, IU. split; [reflexivity|].
  rewrite closed_socks_app, accepted_socks_app, C, IC. reflexivity.
Qed.

(** X5. [web_server_thread] unlocks [data_mutex] exactly as many times as it
    locked it with success, for every number of turns of its loop and
    whatever the calls return. *)
Theorem web_server_thread_lock_balance (n : nat) (e : env) (w : world) :
  count is_unlock (new_events (web_server_thread n) e w)
  = count is_lock_ok (new_events (web_server_thread n) e w).
Proof.
  destruct (web_server_thread_trace n e w) as (turns & Hs & Ht).
  rewrite (new_events_appended _ _ _ _ Ht), !count_app.
  destruct (serial_counts _ _ _ Hs) as (U & _). rewrite U. reflexivity.
Qed.

Lemma serial_closed (sock : Z) (n : nat) (evs : list event) :
  serial sock n evs ->
  forall s r, In (close s, r) evs -> 0 <= s /\ In (accept sock, s) evs.
Proof.
  induction 1 as [|n t rest Ht _ IH]; intros s r Hi; [contradiction|].
  apply in_app_or in Hi. destruct Hi as [Hi | Hi].
  - destruct Ht as [c Hc | c h Hc Hh].
    + destruct Hi as [Hi | []]. discriminate Hi.
    + destruct Hi as [Hi | Hi]; [discriminate Hi|].
      assert (s = c).
      { destruct Hh as [data r1 r2 r3 | rc r2 r3 Hrc];
          cbn [In] in Hi;
          repeat (destruct Hi as [Hi | Hi]; [try discriminate Hi |]);
          try contradiction; congruence. }
      subst s. split; [exact Hc|]. left. reflexivity.
  - destruct (IH s r Hi) as [Hs Ha]. split; [exact Hs|].
    apply in_or_app. right. exact Ha.
Qed.

(** X6. Over any number of turns, the sockets [web_server_thread] closes
    are exactly the connections [accept] returned, each once and in the
    order they were accepted: no connection is left open and none is closed
    twice. Every socket it closes is a non-negative value that [accept]
    returned on the listening socket; the listening socket's own number is
    passed to [close] only if [accept] returned that number. *)
Theorem web_server_thread_closes_accepted (n : nat) (e : env) (w : world) :
  closed_socks (new_events (web_server_thread n) e w)
  = accepted_socks (new_events (web_server_thread n) e w)
  /\ forall s r,
       In (close s, r) (new_events (web_server_thread n) e w) ->
       0 <= s /\
       In (accept (ret (answer_at e w 0)), s)
          (new_events (web_server_thread n) e w).
Proof.
  destruct (web_server_thread_trace n e w) as (turns & Hs & Ht).
  rewrite (new_events_appended _ _ _ _ Ht). split.
  - destruct (serial_counts _ _ _ Hs) as (_ & C).
    rewrite closed_socks_app, accepted_socks_app, C. reflexivity.
  - intros s r Hi. apply in_app_or in Hi. destruct Hi as [Hi | Hi].
    + unfold setup_events in Hi. cbn [In] in Hi.
      repeat (destruct Hi as [Hi | Hi]; [discriminate Hi |]). contradiction.
    + destruct (serial_closed _ _ _ Hs s r Hi) as [H0 Ha].
      split; [exact H0|]. apply in_or_app. right. exact Ha.
Qed.

(** X7. [web_server_thread] and [handle_client] never write
    [latest_reading]: after any number of turns of the accept loop, whatever
    the calls return, it holds the value it held before. *)
Theorem web_server_thread_keeps_latest_reading (n : nat) (e : env) (w : world) :
  latest_reading (exec (web_server_thread n) e w) = latest_reading w
  /\ forall client,
       latest_reading (exec (handle_client client) e w) = latest_reading w.
Proof.
  split.
  - rewrite web_server_thread_setup.
    destruct (accept_loop_serial n e (after_setup e w) (ret (answer_at e w 0)))
      as (evs & _ & _ & L).
    rewrite L. reflexivity.
  - intros client. unfold exec.
    destruct (Z.eq_dec (ret (answer_at e w 0)) 0) as [H | H].
    + rewrite handle_client_locked by exact H. reflexivity.
    + rewrite handle_client_not_locked by exact H. reflexivity.
Qed.

(** ** The response, whatever the reading *)

Lemma fmt_06d_length (v : Z) : (List.length (fmt_06d v) <= 11)%nat.
Proof.
  unfold fmt_06d, fmt_0d. rewrite !length_app, repeat_length.
  pose proof (sign_of_length v). pose proof (utoa_length (Z.abs v)). lia.
Qed.

Lemma code_field_any_length (v : sensor_value) :
  (List.length (code_field v) <= 23)%nat.
Proof.
  rewrite code_field_length.
  pose proof (fmt_d_length (val1 v)). pose proof (fmt_06d_length (val2 v)).
  lia.
Qed.

Lemma no_nul_app (a b : bytes) : no_nul (a ++ b) = (no_nul a && no_nul b)%bool.
Proof. apply forallb_app. Qed.

Lemma no_nul_firstn (n : nat) (l : bytes) :
  no_nul l = true -> no_nul (firstn n l) = true.
Proof.
  revert n. induction l as [|c l IH]; intros [|n] H; try reflexivity.
  cbn in *. apply andb_true_iff in H. destruct H as [Hc Hl].
  rewrite Hc. apply IH. exact Hl.
Qed.

Lemma digit_not_nul (c : ascii) : is_digit c = true -> negb (is_nul c) = true.
Proof.
  intros H. unfold is_nul. destruct (Ascii.eqb c zero) eqn:E; [|reflexivity].
  apply Ascii.eqb_eq in E. subst c. discriminate H.
Qed.

Lemma digits_no_nul (l : bytes) : forallb is_digit l = true -> no_nul l = true.
Proof.
  induction l as [|c l IH]; [reflexivity|]. cbn. intros H.
  apply andb_true_iff in H. destruct H as [Hc Hl].
  rewrite (digit_not_nul c Hc). apply IH. exact Hl.
Qed.

Lemma sign_of_no_nul (v : Z) : no_nul (sign_of v) = true.
Proof. unfold sign_of. destruct (v <? 0); reflexivity. Qed.

Lemma zeros_no_nul (k : nat) : no_nul (repeat "0"%char k) = true.
Proof. induction k as [|k IH]; [reflexivity | exact IH]. Qed.

Lemma code_field_no_nul (v : sensor_value) : no_nul (code_field v) = true.
Proof.
  unfold code_field, fmt_d, fmt_06d, fmt_0d.
  rewrite !no_nul_app, !sign_of_no_nul, zeros_no_nul.
  rewrite !(digits_no_nul _ (utoa_all_digits _)). reflexivity.
Qed.

Lemma full_text_no_nul (r : sensor_reading) : no_nul (full_text r) = true.
Proof.
  unfold full_text, full_body.
  rewrite !no_nul_app, !code_field_no_nul. reflexivity.
Qed.

(** The buffer is long enough for everything but the closing tags. *)
Lemma format_response_cut (r : sensor_reading) :
  exists k,
    (7 <= k)%nat /\
    format_response r =
      http_header ++
      body_open ++ code_field (temp r) ++
      body_mid1 ++ code_field (press r) ++
      body_mid2 ++ code_field (humidity r) ++
      firstn k body_close.
Proof.
  set (A := http_header ++ body_open ++ code_field (temp r) ++
            body_mid1 ++ code_field (press r) ++
            body_mid2 ++ code_field (humidity r)).
  assert (LA : (List.length A <= 248)%nat).
  { unfold A. rewrite !length_app.
    change (List.length http_header) with 44%nat.
    change (List.length body_open) with 95%nat.
    change (List.length body_mid1) with 19%nat.
    change (List.length body_mid2) with 21%nat.
    pose proof (code_field_any_length (temp r)).
    pose proof (code_field_any_length (press r)).
    pose proof (code_field_any_length (humidity r)). lia. }
  assert (E : full_text r = A ++ body_close).
  { unfold A, full_text, full_body. rewrite <- !app_assoc. reflexivity. }
  exists (255 - List.length A)%nat. split; [lia|].
  rewrite format_response_firstn, E, firstn_app.
  rewrite firstn_all2 by lia. unfold A. rewrite <- !app_assoc. reflexivity.
Qed.

(** X8. For every reading, however large its members, the text
    [handle_client] sends on the 200 path has the status line, the header,
    the blank line and all three numbers complete: the 256-byte buffer can
    cut the closing [ %</p></body></html>] only, of which at least 7 bytes
    are kept. The text is at most 255 bytes and holds no NUL byte, so
    [strlen] measures all of it. *)
Theorem format_response_cut_in_closing (r : sensor_reading) :
  (exists k,
     (7 <= k)%nat /\
     format_response r =
       http_header ++
       body_open ++ code_field (temp r) ++
       body_mid1 ++ code_field (press r) ++
       body_mid2 ++ code_field (humidity r) ++
       firstn k body_close)
  /\ (strlen (format_response r) <= 255)%nat
  /\ no_nul (format_response r) = true.
Proof.
  split; [|split].
  - apply format_response_cut.
  - unfold format_response, snprintf, strlen, sizeof_response.
    rewrite length_firstn. lia.
  - rewrite format_response_firstn. apply no_nul_firstn, full_text_no_nul.
Qed.

(** ** The two threads together *)

(** X9. In every reachable state of the two threads, [data_mutex] is owned
    by the sampler exactly while it is storing into [latest_reading] and by
    the web server exactly while [handle_client] is copying it, and the two
    are never there together. In particular the web server does not hold
    the mutex while it accepts, formats, sends or closes, nor the sampler
    while it fetches or sleeps. *)
Theorem mutual_exclusion (rdy : Z) (st : state) :
  reachable rdy st ->
  (g_data_mutex st = Some sensor_tid <-> exists todo, spc st = S_store todo)
  /\ (g_data_mutex st = Some web_server_tid <->
      exists c todo, wpc st = H_copy c todo)
  /\ ~ ((exists todo, spc st = S_store todo) /\
        (exists c todo, wpc st = H_copy c todo)).
Proof.
  intros Hr. destruct (inv_reachable rdy st Hr) as [Imu Iex _ _ _ _ _ _ _].
  unfold holder in Imu. rewrite Imu. clear Imu.
  destruct (spc st) eqn:Es; destruct (wpc st) eqn:Ew;
    cbn [in_store in_copy andb] in *; try discriminate Iex;
    (split; [|split]);
    try (split; [discriminate | intros (? & ?); discriminate]);
    try (split; [discriminate | intros (? & ? & ?); discriminate]);
    try (split; [intros _; eauto | reflexivity]);
    try (intros [(? & ?) (? & ? & ?)]; discriminate).
Qed.

Lemma mutual_exclusion_witness :
  reachable 1 (state_after 1 publish_then_read)
  /\ g_data_mutex (state_after 1 publish_then_read) <> Some web_server_tid.
Proof.
  pose proof (state_after_reachable 1 publish_then_read) as Hr.
  split; [exact Hr|].
  intros H.
  destruct (proj1 (proj1 (proj2 (mutual_exclusion 1 _ Hr))) H) as (c & todo & E).
  assert (W : wpc (state_after 1 publish_then_read) = H_format 4)
    by reflexivity.
  rewrite W in E. discriminate E.
Defined.

(** X10. In every reachable state in which the sampler does not own
    [data_mutex], [latest_reading] is the newest completely stored reading
    (the all-zero one until the first store completes): a partly written
    value exists only while the sampler holds the lock. *)
Theorem latest_reading_whole_outside_store (rdy : Z) (st : state) :
  reachable rdy st ->
  g_data_mutex st <> Some sensor_tid ->
  g_latest_reading st = hd zero_reading (published st)
  /\ In (g_latest_reading st) (published st).
Proof.
  intros Hr Hm.
  destruct (inv_reachable rdy st Hr) as [Imu _ _ Isd _ _ _ _ Ipb].
  unfold holder in Imu.
  destruct (in_store (spc st)); [contradiction|].
  rewrite (Isd eq_refl). split; [reflexivity | apply hd_in_nonempty; exact Ipb].
Qed.

Lemma latest_reading_whole_outside_store_witness :
  reachable 1 (state_after 1 publish_then_read)
  /\ g_data_mutex (state_after 1 publish_then_read) <> Some sensor_tid
  /\ g_latest_reading (state_after 1 publish_then_read) = example_reading
  /\ In (g_latest_reading (state_after 1 publish_then_read))
        (published (state_after 1 publish_then_read)).
Proof.
  pose proof (state_after_reachable 1 publish_then_read) as Hr.
  assert (M : g_data_mutex (state_after 1 publish_then_read) = None)
    by reflexivity.
  assert (Hm : g_data_mutex (state_after 1 publish_then_read)
               <> Some sensor_tid) by (rewrite M; discriminate).
  split; [exact Hr | split; [exact Hm | split; [reflexivity|]]].
  exact (proj2 (latest_reading_whole_outside_store 1 _ Hr Hm)).
Defined.

(** X11. Neither thread can be stuck for good: in every reachable state the
    web server has a step to take, and so has the sampler unless it has
    returned. A thread at its lock attempt takes the mutex when it is free
    and otherwise gives up after the wait; it never waits for a mutex it
    holds itself. *)
Theorem no_deadlock (rdy : Z) (st : state) :
  reachable rdy st ->
  (exists a st', is_web_action a = true /\ fire rdy a st = Some st')
  /\ (spc st <> S_returned ->
      exists a st', is_web_action a = false /\ fire rdy a st = Some st').
Proof.
  intros Hr. destruct (inv_reachable rdy st Hr) as [Imu Iex _ _ _ _ _ _ _].
  unfold holder in Imu. split.
  - destruct (wpc st) as [| |c|c [|s todo]|c|c response|c] eqn:Ew.
    + exists (a_web_start 0 0 0 0). eexists. split; [reflexivity|].
      cbn [fire]. rewrite Ew. reflexivity.
    + exists (a_web_accept 0). eexists. split; [reflexivity|].
      cbn [fire]. rewrite Ew. reflexivity.
    + cbn [in_copy] in Imu. destruct (in_store (spc st)).
      * exists (a_web_lock 1). eexists. split; [reflexivity|].
        cbn [fire]. rewrite Ew, Imu. reflexivity.
      * exists (a_web_lock 0). eexists. split; [reflexivity|].
        cbn [fire]. rewrite Ew, Imu. reflexivity.
    + exists (a_web_unlock 0). eexists. split; [reflexivity|].
      cbn [fire]. rewrite Ew. reflexivity.
    + exists (a_web_copy s). eexists. split; [reflexivity|].
      cbn [fire]. rewrite Ew. cbn [split_at].
      replace (slot_eqb s s) with true by (destruct s; reflexivity).
      reflexivity.
    + exists a_web_format. eexists. split; [reflexivity|].
      cbn [fire]. rewrite Ew. reflexivity.
    + exists (a_web_send 0). eexists. split; [reflexivity|].
      cbn [fire]. rewrite Ew. reflexivity.
    + exists (a_web_close 0). eexists. split; [reflexivity|].
      cbn [fire]. rewrite Ew. reflexivity.
  - intros Hn.
    destruct (spc st) as [| | | |[|s todo]|] eqn:Es.
    + exists (a_sensor_check 0). eexists. split; [reflexivity|].
      cbn [fire]. rewrite Es. reflexivity.
    + contradiction.
    + exists (a_sensor_fetch 0 (driver_stores 0 0) (driver_stores 0 0)
                (driver_stores 0 0)).
      eexists. split; [reflexivity|]. cbn [fire]. rewrite Es. reflexivity.
    + cbn [in_store] in Imu. destruct (in_copy (wpc st)).
      * exists (a_sensor_lock 1). eexists. split; [reflexivity|].
        cbn [fire]. rewrite Es, Imu. reflexivity.
      * exists (a_sensor_lock 0). eexists. split; [reflexivity|].
        cbn [fire]. rewrite Es, Imu. reflexivity.
    + exists (a_sensor_unlock 0). eexists. split; [reflexivity|].
      cbn [fire]. rewrite Es. reflexivity.
    + exists (a_sensor_store s). eexists. split; [reflexivity|].
      cbn [fire]. rewrite Es. cbn [split_at].
      replace (slot_eqb s s) with true by (destruct s; reflexivity).
      reflexivity.
    + exists (a_sensor_sleep 0). eexists. split; [reflexivity|].
      cbn [fire]. rewrite Es. reflexivity.
Qed.

Lemma no_deadlock_witness :
  reachable 1 (state_after 1 publish_then_read)
  /\ exists a st',
       is_web_action a = true
       /\ fire 1 a (state_after 1 publish_then_read) = Some st'.
Proof.
  pose proof (state_after_reachable 1 publish_then_read) as Hr.
  split; [exact Hr|].
  exact (proj1 (no_deadlock 1 _ Hr)).
Defined.

(** ** Reading any response back *)

Lemma parse_unsigned_digits (ds rest : bytes) :
  forallb is_digit ds = true -> ds <> [] -> stops rest ->
  parse_unsigned (ds ++ rest) = Some (atoi_digits ds, rest).
Proof.
  intros Hd Hne Hr. unfold parse_unsigned.
  rewrite span_digits_app by assumption.
  destruct ds; [contradiction | reflexivity].
Qed.

Lemma parse_int_digits (ds rest : bytes) :
  forallb is_digit ds = true -> ds <> [] -> stops rest ->
  parse_int (ds ++ rest) = Some (atoi_digits ds, rest).
Proof.
  intros Hd Hne Hr.
  pose proof (parse_unsigned_digits ds rest Hd Hne Hr) as P.
  destruct ds as [|c ds]; [contradiction|].
  cbn [app parse_int] in *. cbn [forallb] in Hd.
  apply andb_true_iff in Hd. destruct Hd as [Hc _].
  rewrite (digit_not_minus c Hc). exact P.
Qed.

Lemma zeros_all_digits (k : nat) : forallb is_digit (repeat "0"%char k) = true.
Proof. induction k as [|k IH]; [reflexivity | exact IH]. Qed.

Lemma parse_int_fmt_06d (v : Z) (rest : bytes) :
  int32 v -> stops rest -> parse_int (fmt_06d v ++ rest) = Some (v, rest).
Proof.
  unfold int32, INT_MIN, INT_MAX. intros Hv Hr.
  unfold fmt_06d, fmt_0d, sign_of.
  set (k := (6 - _ - _)%nat). clearbody k.
  set (ds := repeat "0"%char k ++ utoa (Z.abs v)).
  assert (Hd : forallb is_digit ds = true)
    by (unfold ds; rewrite forallb_app, zeros_all_digits, utoa_all_digits;
        reflexivity).
  assert (Hne : ds <> []).
  { unfold ds. intros E. apply app_eq_nil in E. destruct E as [_ E].
    exact (utoa_nonempty _ E). }
  assert (Ha : atoi_digits ds = Z.abs v)
    by (unfold ds; rewrite atoi_digits_zeros; apply atoi_utoa; lia).
  destruct (v <? 0) eqn:E.
  - apply Z.ltb_lt in E. cbn [app parse_int]. rewrite Ascii.eqb_refl.
    fold ds. rewrite (parse_unsigned_digits ds rest Hd Hne Hr), Ha.
    do 2 f_equal. lia.
  - apply Z.ltb_ge in E. cbn [app]. fold ds.
    rewrite (parse_int_digits ds rest Hd Hne Hr), Ha.
    do 2 f_equal. lia.
Qed.

Lemma parse_pair_signed_code_field (v : sensor_value) (rest : bytes) :
  sensor_value_ok v -> stops rest ->
  parse_pair_signed (code_field v ++ rest) = Some (v, rest).
Proof.
  intros [H1 H2] Hr. unfold code_field, parse_pair_signed.
  rewrite <- !app_assoc.
  rewrite parse_int_fmt_d by (auto; reflexivity).
  cbn [app expect]. rewrite Ascii.eqb_refl.
  rewrite parse_int_fmt_06d by assumption.
  destruct v; reflexivity.
Qed.

(** X12. For every reading whose members are [int32_t] values, fractional
    parts below zero or above 999999 included, and whether or not the
    buffer cut the text, the three pairs read back from the response sent
    on the 200 path are exactly the reading's six integers: two different
    readings never give the same response. *)
Theorem format_response_keeps_all_readings (r : sensor_reading) :
  reading_ok r -> parse_fields (format_response r) = Some r.
Proof.
  intros (Ot & Op & Oh).
  pose proof (format_response_cut r) as C.
  destruct C as (k & Hk & E). rewrite E. unfold parse_fields.
  rewrite app_assoc, expect_app.
  rewrite parse_pair_signed_code_field by (auto; reflexivity).
  rewrite expect_app.
  rewrite parse_pair_signed_code_field by (auto; reflexivity).
  rewrite expect_app.
  assert (Hs : stops (firstn k body_close))
    by (destruct k as [|k]; [lia | reflexivity]).
  rewrite (parse_pair_signed_code_field _ _ Oh Hs).
  destruct r; reflexivity.
Qed.

Lemma format_response_keeps_all_readings_witness :
  reading_ok below_zero_reading
  /\ parse_fields (format_response below_zero_reading) = Some below_zero_reading.
Proof.
  assert (H : reading_ok below_zero_reading)
    by (unfold reading_ok, sensor_value_ok, int32, INT_MIN, INT_MAX;
        simpl; lia).
  split; [exact H|].
  exact (format_response_keeps_all_readings below_zero_reading H).
Defined.
